(** * microGWASutils: the VEP post-processing scripts

    A shallow embedding of [scripts/vep_highest_impact.py] (Loader, Selector,
    index ordering, Renamer and the command line driver) and of
    [scripts/annotate_vep_regenie.py] (Merger), with the properties of the
    specification proved or refuted against it.

    Tables are pandas data frames.  A frame is kept as the list of its rows
    in storage order, each row carrying its index label.  Cells are text,
    as they stand in the tab-separated files; the [Extra] cell of a loaded
    row is a Python [dict] from text to text. *)

From Stdlib Require Import String Ascii List Arith Lia.
From Stdlib Require Import Sorting.Permutation Sorting.Sorted.
From Stdlib Require Import Structures.OrderedTypeEx.
From stdpp Require Import gmap strings list.

(** ** Python values and exceptions *)

Module Py.

(** The exceptions the two scripts can meet. *)
Inductive exn : Type :=
| FileNotFoundError
| ValueError
| AttributeError
| IndexError
| KeyError
| UnboundLocalError
| ParserError.

(** The outcome of evaluating an expression: a value, or a raised
    exception. *)
Inductive result (A : Type) : Type :=
| Ok (a : A)
| Raise (e : exn).
Arguments Ok {A} a.
Arguments Raise {A} e.

Definition bind {A B} (r : result A) (k : A -> result B) : result B :=
  match r with
  | Ok a => k a
  | Raise e => Raise e
  end.

Definition is_ok {A} (r : result A) : bool :=
  match r with Ok _ => true | Raise _ => false end.

(** [s.split(sep)] for a separator of one character: the pieces between
    the separators, always at least one piece. *)
Fixpoint split (sep : ascii) (s : string) : list string :=
  match s with
  | EmptyString => [EmptyString]
  | String c s' =>
      if Ascii.eqb c sep then EmptyString :: split sep s'
      else match split sep s' with
           | [] => [String c EmptyString]
           | piece :: pieces => String c piece :: pieces
           end
  end.

(** [c in s] for a character [c]. *)
Fixpoint contains (c : ascii) (s : string) : bool :=
  match s with
  | EmptyString => false
  | String c' s' => Ascii.eqb c' c || contains c s'
  end.

(** [s.startswith(c)] for a character [c]. *)
Definition startswith (c : ascii) (s : string) : bool :=
  match s with
  | EmptyString => false
  | String c' _ => Ascii.eqb c' c
  end.

(** [l[i]] on a list: an [IndexError] out of range. *)
Definition getitem {A} (l : list A) (i : nat) : result A :=
  match nth_error l i with
  | Some x => Ok x
  | None => Raise IndexError
  end.

(** A [dict] with text keys and text values. *)
Abbreviation dict := (gmap string string).

(** One step of [dict(pairs)]: the next element must be a sequence of
    exactly two items, key and value; a later key overwrites an earlier
    one. *)
Definition dict_add (d : dict) (item : list string) : result dict :=
  match item with
  | [k; v] => Ok (<[k := v]> d)
  | _ => Raise ValueError
  end.

(** [dict(pairs)]. *)
Fixpoint dict_of (d : dict) (items : list (list string)) : result dict :=
  match items with
  | [] => Ok d
  | item :: rest => bind (dict_add d item) (fun d' => dict_of d' rest)
  end.

(** [k in d]. *)
Definition mem (k : string) (d : dict) : bool :=
  match d !! k with Some _ => true | None => false end.

End Py.

Import Py.

Notation "'let*' x ':=' e 'in' k" := (Py.bind e (fun x => k))
  (at level 10, x pattern, e at level 100, k at level 200).

(** ** Computations with effects *)

(** A computation of a script over a world [W]: it may change the world,
    and returns a value or raises. *)
Definition M (W A : Type) : Type := W -> W * result A.

Definition ret {W A} (a : A) : M W A := fun w => (w, Ok a).

Definition bindM {W A B} (m : M W A) (k : A -> M W B) : M W B :=
  fun w => match m w with
           | (w', Ok a) => k a w'
           | (w', Raise e) => (w', Raise e)
           end.

Notation "'do*' x ':=' m 'in' k" := (bindM m (fun x => k))
  (at level 10, x pattern, m at level 100, k at level 200).

(** A pure expression evaluated inside a computation. *)
Definition eval {W A} (r : result A) : M W A := fun w => (w, r).

(** An expression that reads the world. *)
Definition inspect {W A} (f : W -> result A) : M W A := fun w => (w, f w).

(** A statement that changes the world. *)
Definition exec {W} (f : W -> W) : M W unit := fun w => (f w, Ok tt).

Definition exn_eqb (a b : exn) : bool :=
  match a, b with
  | FileNotFoundError, FileNotFoundError
  | ValueError, ValueError
  | AttributeError, AttributeError
  | IndexError, IndexError
  | KeyError, KeyError
  | UnboundLocalError, UnboundLocalError
  | ParserError, ParserError => true
  | _, _ => false
  end.

(** [try: body except e: handler]. *)
Definition try_except {W A} (body : M W A) (e : exn) (handler : M W A) : M W A :=
  fun w => match body w with
           | (w', Raise e') =>
               if exn_eqb e' e then handler w' else (w', Raise e')
           | done => done
           end.

(** ** The data model of [vep_highest_impact.py] *)

(** An annotation row: the fourteen columns the Loader names.  [E] is the
    type of the [Extra] cell: text in the file, a [dict] once loaded. *)
Record Row (E : Type) : Type := mkRow {
  Uploaded_variation : string;
  Location : string;
  Allele : string;
  Gene : string;
  Feature : string;
  Feature_type : string;
  Consequence : string;
  cDNA_position : string;
  CDS_position : string;
  Protein_position : string;
  Amino_acids : string;
  Codons : string;
  Existing_variation : string;
  Extra : E
}.
Arguments mkRow {E}.
Arguments Uploaded_variation {E} _.
Arguments Location {E} _.
Arguments Allele {E} _.
Arguments Gene {E} _.
Arguments Feature {E} _.
Arguments Feature_type {E} _.
Arguments Consequence {E} _.
Arguments cDNA_position {E} _.
Arguments CDS_position {E} _.
Arguments Protein_position {E} _.
Arguments Amino_acids {E} _.
Arguments Codons {E} _.
Arguments Existing_variation {E} _.
Arguments Extra {E} _.

(** [row['Extra'] = e], also changing the type of the cell. *)
Definition set_Extra {E F} (r : Row E) (e : F) : Row F :=
  mkRow (Uploaded_variation r) (Location r) (Allele r) (Gene r) (Feature r)
        (Feature_type r) (Consequence r) (cDNA_position r) (CDS_position r)
        (Protein_position r) (Amino_acids r) (Codons r)
        (Existing_variation r) e.

(** [row['Uploaded_variation'] = v]. *)
Definition set_Uploaded_variation {E} (r : Row E) (v : string) : Row E :=
  mkRow v (Location r) (Allele r) (Gene r) (Feature r)
        (Feature_type r) (Consequence r) (cDNA_position r) (CDS_position r)
        (Protein_position r) (Amino_acids r) (Codons r)
        (Existing_variation r) (Extra r).

(** A labelled row: the index label of the row, and the row (a pandas
    [Series] whose [name] is the label). *)
Abbreviation Series := (nat * Row dict)%type.

(** A data frame: its rows in storage order, each with its index label. *)
Abbreviation DataFrame := (list (nat * Row dict)).

Definition label (x : Series) : nat := fst x.
Definition variation (x : Series) : string := Uploaded_variation (snd x).
Definition location (x : Series) : string := Location (snd x).

(** The index of a frame just read: [RangeIndex], 0, 1, 2, ... *)
Definition range_index (rows : list (Row dict)) : DataFrame :=
  combine (seq 0 (length rows)) rows.

(** ** The Loader, [read_vep_annotation_file] *)

(** [df.columns = [...]] on the frame just read: fourteen labels for
    fourteen columns, a [ValueError] for a frame of another width. *)
Definition assign_columns (cells : list string) : result (Row string) :=
  match cells with
  | [c1; c2; c3; c4; c5; c6; c7; c8; c9; c10; c11; c12; c13; c14] =>
      Ok (mkRow c1 c2 c3 c4 c5 c6 c7 c8 c9 c10 c11 c12 c13 c14)
  | _ => Raise ValueError
  end.

(** [f] applied to the elements of a list in order, up to the first
    exception. *)
Fixpoint traverse {A B} (f : A -> result B) (l : list A) : result (list B) :=
  match l with
  | [] => Ok []
  | a :: rest =>
      let* b := f a in
      let* bs := traverse f rest in
      Ok (b :: bs)
  end.

(** The function applied to the [Extra] cell:
    [lambda x: dict(item.split('=') for item in x.split(';') if '=' in item)] *)
Definition parse_extra (x : string) : result dict :=
  dict_of ∅
    (List.map (split "=") (List.filter (contains "=") (split ";" x))).

(** [df['Extra'] = df['Extra'].apply(...)] on one row. *)
Definition apply_parse_extra (r : Row string) : result (Row dict) :=
  let* d := parse_extra (Extra r) in
  Ok (set_Extra r d).

(** The file system and the standard output, as far as the script uses
    them: a text file is the list of its lines. *)
Record World : Type := mkWorld {
  files : gmap string (list string);
  stdout : list string
}.

Definition write_file (path : string) (lines : list string) (w : World) : World :=
  mkWorld (<[path := lines]> (files w)) (stdout w).

Definition remove_file (path : string) (w : World) : World :=
  mkWorld (delete path (files w)) (stdout w).

Definition print (line : string) (w : World) : World :=
  mkWorld (files w) (stdout w ++ [line]).

(** [open(path, 'r')] and reading the lines. *)
Definition read_lines (path : string) (w : World) : result (list string) :=
  match files w !! path with
  | Some lines => Ok lines
  | None => Raise FileNotFoundError
  end.

(** [os.remove(path)]. *)
Definition os_remove (path : string) : M World unit :=
  fun w => match files w !! path with
           | Some _ => (remove_file path w, Ok tt)
           | None => (w, Raise FileNotFoundError)
           end.

Section Loader.

(** [pd.read_csv(path, sep='\t', header=None, engine='python')] on the
    lines of a file: the rows of cells of the frame, or an exception.
    The reader is pandas' own and is a parameter here. *)
Variable read_csv : list string -> result (list (list string)).

Definition read_vep_annotation_file (file_path : string)
  : M World (option DataFrame) :=
  try_except
    (do* lines := inspect (read_lines file_path) in
     do* _ := exec (write_file (file_path +:+ ".tmp")
                      (List.filter (fun line => negb (startswith "#" line)) lines)) in
     do* tmp := inspect (read_lines (file_path +:+ ".tmp")) in
     do* cells := eval (read_csv tmp) in
     do* named := eval (traverse assign_columns cells) in
     do* rows := eval (traverse apply_parse_extra named) in
     do* _ := os_remove (file_path +:+ ".tmp") in
     ret (Some (range_index rows)))
    FileNotFoundError
    (do* _ := exec (print ("File not found: " +:+ file_path)) in
     ret None).

End Loader.

(** ** The Selector, [select_highest_impact_rows] *)

(** Insertion in a list ordered by [le], before the first element that is
    not smaller. *)
Fixpoint insert_by {A} (le : A -> A -> bool) (a : A) (l : list A) : list A :=
  match l with
  | [] => [a]
  | b :: rest => if le a b then a :: l else b :: insert_by le a rest
  end.

(** A stable sort by [le]. *)
Definition sort_by {A} (le : A -> A -> bool) (l : list A) : list A :=
  fold_right (insert_by le) [] l.

(** The keys of [df.groupby('Location')]: the distinct values of the
    column, in ascending order (text compares character by character). *)
Definition group_keys (df : DataFrame) : list string :=
  sort_by String.leb (nodup String.string_dec (List.map location df)).

(** [df.groupby('Location')]: for each key, the rows with that key, in the
    order of the frame. *)
Definition groupby_Location (df : DataFrame) : list (string * DataFrame) :=
  List.map (fun key => (key, List.filter (fun x => String.eqb (location x) key) df))
           (group_keys df).

(** [group.loc[label]]: the row of the group with that label. *)
Definition loc (group : DataFrame) (lbl : nat) : result Series :=
  match List.find (fun x => Nat.eqb (label x) lbl) group with
  | Some x => Ok x
  | None => Raise KeyError
  end.

(** [d[k]] on a dict. *)
Definition dict_get (k : string) (d : dict) : result string :=
  match d !! k with
  | Some v => Ok v
  | None => Raise KeyError
  end.

(** [row['Extra']['DISTANCE'] < other['Extra']['DISTANCE']], on text. *)
Definition distance_lt (row other : Series) : result bool :=
  let* a := dict_get "DISTANCE" (Extra (snd row)) in
  let* b := dict_get "DISTANCE" (Extra (snd other)) in
  Ok (String.ltb a b).

(** The local variables of the function: the list being built, the loop
    variables [index, row] (unbound until a first iteration binds them;
    they keep their values from one group to the next) and
    [lowest_distance_idx]. *)
Record Locals : Type := mkLocals {
  selected_rows : list Series;
  index_row : option Series;
  lowest_distance_idx : option nat
}.

Definition append_row (x : Series) (st : Locals) : Locals :=
  mkLocals (selected_rows st ++ [x]) (index_row st) (lowest_distance_idx st).

Definition bind_index_row (x : Series) (st : Locals) : Locals :=
  mkLocals (selected_rows st) (Some x) (lowest_distance_idx st).

Definition set_lowest_distance_idx (v : option nat) (st : Locals) : Locals :=
  mkLocals (selected_rows st) (index_row st) v.

(** [for index, row in group.iterrows(): if 'DISTANCE' not in row['Extra']:
    selected_rows.append(row); break] *)
Fixpoint scan (group : DataFrame) (st : Locals) : Locals :=
  match group with
  | [] => st
  | x :: rest =>
      let st' := bind_index_row x st in
      if negb (mem "DISTANCE" (Extra (snd x)))
      then append_row x st'
      else scan rest st'
  end.

(** A local variable that must be bound when it is read. *)
Definition bound {A} (v : option A) : result A :=
  match v with
  | Some a => Ok a
  | None => Raise UnboundLocalError
  end.

Section Selector.

(** The comparison written on line 73, kept as a parameter of the group
    step so that what the step does with it can be stated. *)
Variable compare_distance : Series -> Series -> result bool.

(** [lowest_distance_idx is None or row[...] < group.loc[...][...]]:
    [or] evaluates its right operand only if the left one is false. *)
Definition post_loop_condition (group : DataFrame) (st : Locals) : result bool :=
  match lowest_distance_idx st with
  | None => Ok true
  | Some lowest =>
      let* row := bound (index_row st) in
      let* other := loc group lowest in
      compare_distance row other
  end.

(** The body of [for _, group in grouped]. *)
Definition select_in_group (group : DataFrame) (st : Locals) : result Locals :=
  if length group =? 1 then
    let* first := getitem group 0 in
    Ok (append_row first st)
  else
    let st := set_lowest_distance_idx None st in
    let st := scan group st in
    let* c := post_loop_condition group st in
    if c then
      let* current := bound (index_row st) in
      let st := set_lowest_distance_idx (Some (label current)) st in
      let* lowest := bound (lowest_distance_idx st) in
      let* chosen := loc group lowest in
      Ok (append_row chosen st)
    else Ok st.

Fixpoint for_groups (grouped : list (string * DataFrame)) (st : Locals)
  : result Locals :=
  match grouped with
  | [] => Ok st
  | (_, group) :: rest =>
      let* st' := select_in_group group st in
      for_groups rest st'
  end.

End Selector.

(** [df.duplicated(subset=['Uploaded_variation'])], with the values met so
    far: a row is a duplicate if its value occurred in an earlier row. *)
Fixpoint drop_duplicates_seen (seen : list string) (df : DataFrame) : DataFrame :=
  match df with
  | [] => []
  | x :: rest =>
      if existsb (String.eqb (variation x)) seen
      then drop_duplicates_seen seen rest
      else x :: drop_duplicates_seen (variation x :: seen) rest
  end.

(** [df.drop_duplicates(subset=['Uploaded_variation'])]: the first row of
    each value is kept. *)
Definition drop_duplicates (df : DataFrame) : DataFrame :=
  drop_duplicates_seen [] df.

(** The Selector with the comparison as a parameter.  The argument is
    [None] when the Loader found no file; [None.columns] is an
    [AttributeError].  A frame of this model always has its [Location]
    column, so the [ValueError] of line 58 is not raised. *)
Definition select_rows_with (compare_distance : Series -> Series -> result bool)
    (df : option DataFrame) : result DataFrame :=
  match df with
  | None => Raise AttributeError
  | Some df =>
      let grouped := groupby_Location df in
      let* st := for_groups compare_distance grouped (mkLocals [] None None) in
      let selected_df := selected_rows st in
      Ok (drop_duplicates selected_df)
  end.

Definition select_highest_impact_rows : option DataFrame -> result DataFrame :=
  select_rows_with distance_lt.

(** ** [sort_df_by_index] *)

Definition sort_df_by_index (df : DataFrame) : DataFrame :=
  sort_by (fun x y => label x <=? label y) df.

(** ** The Renamer, [rename_snps_in_df] *)

(** What the [Series] that [iterrows] yields is to the frame.  pandas
    builds it on [df.values]: for a frame held in one block of one dtype
    (every frame of this script: all cells are Python objects) that is a
    view of the frame's storage, and an assignment to the row writes
    through; under copy-on-write, or for a frame of several dtypes, it is
    a copy and the assignment is lost. *)
Inductive row_access : Type := View | Copy.

Section Renamer.

Variable access : row_access.

(** One iteration of [for index, row in df.iterrows()], at position [i]
    of the frame. *)
Definition rename_row (prefix : list string) (df : DataFrame) (i : nat)
  : result DataFrame :=
  match df !! i with
  | None => Ok df
  | Some (index, row) =>
      let var_name := split "_" (Uploaded_variation row) in
      let* p0 := getitem prefix 0 in
      let* v0 := getitem var_name 0 in
      let* v1 := getitem var_name 1 in
      let var_new_name := p0 +:+ ":" +:+ "contig_" +:+ v0 +:+ ":" +:+ v1 in
      match access with
      | View => Ok (<[i := (index, set_Uploaded_variation row var_new_name)]> df)
      | Copy => Ok df
      end
  end.

Fixpoint rename_rows (prefix : list string) (positions : list nat) (df : DataFrame)
  : result DataFrame :=
  match positions with
  | [] => Ok df
  | i :: rest =>
      let* df' := rename_row prefix df i in
      rename_rows prefix rest df'
  end.

Definition rename_snps_in_df (df : DataFrame) (prefix : list string)
  : result DataFrame :=
  rename_rows prefix (seq 0 (length df)) df.

End Renamer.

(** ** The command line driver, [main] *)

Record Args : Type := mkArgs {
  vep : string;
  rename : option string;
  out : string
}.

Section Main.

Variable read_csv : list string -> result (list (list string)).

(** [df.to_csv(path, sep='\t', index=False)]: the lines written. *)
Variable to_csv : DataFrame -> list string.

Variable access : row_access.

(** [main] from the call of the Selector on. *)
Definition main_from_selector (args : Args) (vep_df : option DataFrame)
  : M World unit :=
  do* selected_df := eval (select_highest_impact_rows vep_df) in
  let sorted_vep_df := sort_df_by_index selected_df in
  match rename args with
  | None => exec (write_file (out args) (to_csv sorted_vep_df))
  | Some r =>
      let words := split "," r in
      do* result_df := eval (rename_snps_in_df access sorted_vep_df words) in
      exec (write_file (out args) (to_csv result_df))
  end.

Definition main (args : Args) : M World unit :=
  do* vep_df := read_vep_annotation_file read_csv (vep args) in
  main_from_selector args vep_df.

End Main.

(** ** The Merger, [annotate_vep_regenie.py] *)

Module Annotate.

(** A table read from a tab-separated file with a header line: the
    column labels and the rows of cells. *)
Record Table : Type := mkTable {
  columns : list string;
  rows : list (list string)
}.

(** The file system as the Merger sees it through [pd.read_csv] and
    [to_csv]: a path holds a table. *)
Record World : Type := mkWorld {
  files : gmap string Table
}.

Record Args : Type := mkArgs {
  vep : string;
  regenie : string;
  out : string
}.

(** [pd.read_csv(path, sep='\t', engine='python')]. *)
Definition read_csv (path : string) : M World Table :=
  inspect (fun w => match files w !! path with
                    | Some t => Ok t
                    | None => Raise FileNotFoundError
                    end).

(** [df.to_csv(path, sep='\t', index=False)]. *)
Definition to_csv (t : Table) (path : string) : M World unit :=
  exec (fun w => mkWorld (<[path := t]> (files w))).

(** The position of a column label, a [KeyError] for a label the table
    does not have. *)
Fixpoint column_position (name : string) (cols : list string) : result nat :=
  match cols with
  | [] => Raise KeyError
  | c :: rest =>
      if String.eqb c name then Ok 0
      else let* i := column_position name rest in Ok (S i)
  end.

(** The cell of a row in the column at position [i]. *)
Definition cell (i : nat) (row : list string) : option string :=
  nth_error row i.

Definition same_key (a b : option string) : bool :=
  match a, b with
  | Some x, Some y => String.eqb x y
  | _, _ => false
  end.

(** The labels of one side after a merge: a label that both sides have
    gets the side's suffix. *)
Definition suffixed (suffix : string) (other mine : list string) : list string :=
  List.map (fun c => if existsb (String.eqb c) other then c +:+ suffix else c) mine.

(** [left.merge(right, left_on=.., right_on=.., how='inner')] on text
    cells: every pair of a left row and a right row with equal keys, in
    the order of the left rows.  pandas' further checks on a merge (key
    columns of unlike dtype, labels that clash once suffixed) are
    outside this model. *)
Definition merge_inner (left right : Table) (left_on right_on : string)
  : result Table :=
  let* li := column_position left_on (columns left) in
  let* ri := column_position right_on (columns right) in
  Ok (mkTable
        (suffixed "_x" (columns right) (columns left)
         ++ suffixed "_y" (columns left) (columns right))
        (flat_map
           (fun l => List.map (fun r => l ++ r)
                       (List.filter (fun r => same_key (cell li l) (cell ri r))
                                    (rows right)))
           (rows left))).

(** [df.empty]: some axis has length zero. *)
Definition empty (t : Table) : bool :=
  match rows t, columns t with
  | [], _ | _, [] => true
  | _, _ => false
  end.

Definition main (args : Args) : M World unit :=
  do* vep_df := read_csv (vep args) in
  do* regenie_df := read_csv (regenie args) in
  do* merged_df := eval (merge_inner vep_df regenie_df "Uploaded_variation" "ID") in
  if empty merged_df then
    let result_df := mkTable (columns vep_df ++ columns regenie_df) [] in
    to_csv result_df (out args)
  else
    let result_df := merged_df in
    to_csv result_df (out args).

End Annotate.

(** ** What the specification says, in the terms of the model *)

(** The identifier the Renamer is to produce:
    [{prefix}:contig_{part0}:{part1}]. *)
Definition renamed_form (prefix part0 part1 : string) : string :=
  prefix +:+ ":contig_" +:+ part0 +:+ ":" +:+ part1.

(** Two rows agree on every column other than [Uploaded_variation]. *)
Definition same_other_columns {E} (r r' : Row E) : Prop :=
  Location r = Location r' /\ Allele r = Allele r' /\ Gene r = Gene r' /\
  Feature r = Feature r' /\ Feature_type r = Feature_type r' /\
  Consequence r = Consequence r' /\ cDNA_position r = cDNA_position r' /\
  CDS_position r = CDS_position r' /\ Protein_position r = Protein_position r' /\
  Amino_acids r = Amino_acids r' /\ Codons r = Codons r' /\
  Existing_variation r = Existing_variation r' /\ Extra r = Extra r'.

(** The first row of a group without a [DISTANCE] key. *)
Definition first_without_distance (group : DataFrame) : option Series :=
  List.find (fun x => negb (mem "DISTANCE" (Extra (snd x)))) group.

(** The row the specification selects for a group: the only row of a
    group of one; otherwise the first row without a [DISTANCE] key, or,
    when every row has one, the last row. *)
Definition chosen (group : DataFrame) : option Series :=
  match group with
  | [x] => Some x
  | _ => match first_without_distance group with
         | Some x => Some x
         | None => last group
         end
  end.

(** A row with its identifier rewritten, when it has two parts. *)
Definition rename_one (p : string) (x : Series) : Series :=
  match split "_" (variation x) with
  | part0 :: part1 :: _ => (label x, set_Uploaded_variation (snd x) (renamed_form p part0 part1))
  | _ => x
  end.

(** The rows the Selector appends for a group: the chosen row, twice when
    the scan of a larger group stopped at it (once inside the loop and once
    after it). *)
Definition appended (group : DataFrame) : list Series :=
  match group with
  | [x] => [x]
  | _ => match first_without_distance group with
         | Some x => [x; x]
         | None => match last group with
                   | Some x => [x]
                   | None => []
                   end
         end
  end.

(** The group-wise selection: what the groups append, in the order of the
    groups. *)
Definition selection (df : DataFrame) : list Series :=
  flat_map (fun kg => appended (snd kg)) (groupby_Location df).

(** The first row of a list with a given identifier. *)
Definition first_with_variation (v : string) (l : list Series) : option Series :=
  List.find (fun y => String.eqb (variation y) v) l.

(** The number of rows of a frame with a given location. *)
Definition rows_at (key : string) (df : DataFrame) : nat :=
  length (List.filter (fun y => String.eqb (location y) key) df).

(** C2 as the specification states it: one output row for each distinct
    location of the input. *)
Definition one_row_per_location (df out : DataFrame) : Prop :=
  forall key, In key (List.map location df) -> rows_at key out = 1.

(** C3 as the specification states it: of two selected rows with the same
    identifier, the one with the smaller index label is kept and the
    other is not. *)
Definition keeps_smaller_index (df out : DataFrame) : Prop :=
  forall x y, In x (selection df) -> In y (selection df) ->
    variation x = variation y -> label x < label y ->
    In x out /\ ~ In y out.

(** The values of a column of a table of the Merger. *)
Definition column_values (name : string) (t : Annotate.Table) : list string :=
  match Annotate.column_position name (Annotate.columns t) with
  | Ok i => omap (Annotate.cell i) (Annotate.rows t)
  | Raise _ => []
  end.

(** ** Sample data *)

Definition sample_row (variation location extra : string) : Row string :=
  mkRow variation location "A" "geneX" "tx1" "Transcript" "missense_variant"
        "-" "-" "-" "-" "-" "-" extra.

(** A loaded row: the [Extra] text parsed as the Loader does. *)
Definition loaded_row (variation location extra : string) : Row dict :=
  set_Extra (sample_row variation location extra)
            (match parse_extra extra with Ok d => d | Raise _ => ∅ end).

(** A reader for plain files: one row per line, cells between tabs. *)
Definition plain_reader (lines : list string) : result (list (list string)) :=
  match lines with
  | [] => Raise ParserError
  | _ => Ok (List.map (split "009") lines)
  end.

(** A writer that keeps the identifier and the location of each row. *)
Definition plain_writer (df : DataFrame) : list string :=
  List.map (fun x => variation x +:+ ";" +:+ location x) df.

Definition sample_vep_table : Annotate.Table :=
  Annotate.mkTable ["Uploaded_variation"; "Location"; "Extra"]%string
                   [["s:contig_1:10"; "1:10"; "{}"]; ["s:contig_1:20"; "1:20"; "{}"]]%string.

Definition sample_regenie_table : Annotate.Table :=
  Annotate.mkTable ["CHROM"; "ID"; "LOG10P"]%string
                   [["1"; "s:contig_1:30"; "7.5"]]%string.

Definition sample_merger_world : Annotate.World :=
  Annotate.mkWorld (<["vep.tsv"%string := sample_vep_table]>
                      (<["regenie.tsv"%string := sample_regenie_table]> ∅)).

(** Two locations with the same identifier. *)
Definition shared_variation_df : DataFrame :=
  [(0, loaded_row "v1" "1:100" ""); (1, loaded_row "v1" "1:200" "")].

(** The same, the later location first in the file. *)
Definition swapped_locations_df : DataFrame :=
  [(0, loaded_row "v1" "2:100" ""); (1, loaded_row "v1" "1:100" "")].

(** The example of the specification: a row with a distance, then one
    without, at one location. *)
Definition spec_example_df : DataFrame :=
  [(0, loaded_row "v1" "1:100" "DISTANCE=5"); (1, loaded_row "v2" "1:100" "")].

(** Three rows with a distance at one location, the smallest first. *)
Definition all_distances_df : DataFrame :=
  [(0, loaded_row "v1" "1:100" "DISTANCE=1"); (1, loaded_row "v2" "1:100" "DISTANCE=7");
   (2, loaded_row "v3" "1:100" "DISTANCE=9")].

(** [sep.join(pieces)]. *)
Fixpoint join (sep : ascii) (pieces : list string) : string :=
  match pieces with
  | [] => EmptyString
  | [piece] => piece
  | piece :: rest => piece +:+ String sep (join sep rest)
  end.

(** [s.count(c)] for a character [c]. *)
Fixpoint count_char (c : ascii) (s : string) : nat :=
  match s with
  | EmptyString => 0
  | String c' s' => (if Ascii.eqb c' c then 1 else 0) + count_char c s'
  end.

(** The segments of an [Extra] text that the Loader keeps. *)
Definition kept_segments (x : string) : list string :=
  List.filter (contains "=") (split ";" x).

(** The text of a segment before its first ['=']. *)
Definition segment_key (item : string) : string :=
  match split "=" item with
  | k :: _ => k
  | [] => EmptyString
  end.

(** The text of a segment between its first and its second ['=']. *)
Definition segment_value (item : string) : string :=
  match split "=" item with
  | _ :: v :: _ => v
  | _ => EmptyString
  end.

(** The lines of a file that are not comments. *)
Definition strip_comments (lines : list string) : list string :=
  List.filter (fun line => negb (startswith "#" line)) lines.

(** What the Loader makes of the stripped lines: the rows of the frame,
    or the exception of the reader, of the assignment of the labels or of
    the parsing of an [Extra] cell. *)
Definition loaded_rows (read_csv : list string -> result (list (list string)))
    (lines : list string) : result (list (Row dict)) :=
  let* cells := read_csv lines in
  let* named := traverse assign_columns cells in
  traverse apply_parse_extra named.

(** A file of three lines, one of them a comment. *)
Definition sample_vep_lines : list string :=
  ["## VEP output"%string;
   join "009" ["1_100_A/G"; "1:100"; "G"; "geneX"; "tx1"; "Transcript";
               "upstream_gene_variant"; "-"; "-"; "-"; "-"; "-"; "-";
               "IMPACT=MODIFIER;DISTANCE=5"]%string;
   join "009" ["1_100_A/G"; "1:100"; "G"; "geneY"; "tx2"; "Transcript";
               "missense_variant"; "10"; "10"; "4"; "A/T"; "Gcc/Acc"; "-";
               "IMPACT=MODERATE"]%string].

Definition sample_vep_world : World :=
  mkWorld (<["in.vep"%string := sample_vep_lines]> ∅) [].

(** A file whose second row has an [Extra] cell with two ['='] in one
    segment. *)
Definition bad_extra_world : World :=
  mkWorld (<["in.vep"%string :=
              [join "009" ["1_100_A/G"; "1:100"; "G"; "geneX"; "tx1"; "Transcript";
                           "synonymous_variant"; "-"; "-"; "-"; "-"; "-"; "-";
                           "IMPACT=LOW;HGVSp=p.Leu5="]%string]]> ∅) [].

(** The rows loaded from the sample file. *)
Definition sample_vep_rows : list (Row dict) :=
  match loaded_rows plain_reader (strip_comments sample_vep_lines) with
  | Ok rows => rows
  | Raise _ => []
  end.

(** The text before the first separator. *)
Definition segment_key_of (sep : ascii) (s : string) : string :=
  match split sep s with
  | k :: _ => k
  | [] => EmptyString
  end.

(** A results table with a row for the first variant of the sample
    annotation table. *)
Definition matching_regenie_table : Annotate.Table :=
  Annotate.mkTable ["CHROM"; "ID"; "LOG10P"]%string
                   [["1"; "s:contig_1:10"; "7.5"]; ["1"; "s:contig_1:99"; "0.2"]]%string.

Definition matching_merger_world : Annotate.World :=
  Annotate.mkWorld (<["vep.tsv"%string := sample_vep_table]>
                      (<["regenie.tsv"%string := matching_regenie_table]> ∅)).

(** * Properties *)

(** ** Text *)

Lemma split_not_nil (sep : ascii) (s : string) : split sep s <> [].
Proof.
  induction s as [|c s IH]; simpl; [discriminate|].
  destruct (Ascii.eqb c sep); [discriminate|].
  destruct (split sep s); discriminate.
Qed.

(** ** The Loader *)

(** C6: a segment with two ['='] makes [dict] raise: [item.split('=')]
    cuts at every ['='], and the three pieces are not a key and a value.
    The specification wants the segment cut at its first ['='] and no
    error. *)
Theorem parse_extra_raises_on_second_equals :
  parse_extra "IMPACT=LOW;HGVSp=p.Leu5=" = Raise ValueError
  /\ split "=" "HGVSp=p.Leu5=" = ["HGVSp"; "p.Leu5"; ""]%string.
Proof. split; reflexivity. Qed.

Section LoaderFacts.

Variable read_csv : list string -> result (list (list string)).
Variable to_csv : DataFrame -> list string.
Variable access : row_access.

Lemma loader_no_file (path : string) (w : World) :
  files w !! path = None ->
  read_vep_annotation_file read_csv path w
  = (print ("File not found: " +:+ path) w, Ok None).
Proof.
  intros H.
  unfold read_vep_annotation_file, try_except, bindM, inspect, read_lines.
  rewrite H. reflexivity.
Qed.

(** C9: for a path that does not exist the Loader raises nothing: it
    prints the message, leaves the files as they are and returns [None];
    [main] goes on and calls the Selector with [None], which is where
    the run ends, with an [AttributeError] and no output written. *)
Theorem loader_missing_file_returns_none (args : Args) (w : World) :
  files w !! vep args = None ->
  let w' := print ("File not found: " +:+ vep args) w in
  read_vep_annotation_file read_csv (vep args) w = (w', Ok None)
  /\ files w' = files w
  /\ stdout w' = stdout w ++ ["File not found: " +:+ vep args]
  /\ main read_csv to_csv access args w
     = main_from_selector to_csv access args None w'
  /\ main read_csv to_csv access args w = (w', Raise AttributeError).
Proof.
  intros H w'.
  pose proof (loader_no_file (vep args) w H) as L.
  repeat split; try assumption.
  - unfold main, bindM. rewrite L. reflexivity.
  - unfold main, bindM. rewrite L. reflexivity.
Qed.

End LoaderFacts.

Lemma loader_missing_file_witness :
  read_vep_annotation_file plain_reader "in.vep" (mkWorld ∅ [])
  = (mkWorld ∅ ["File not found: in.vep"%string], Ok None).
Proof.
  apply (loader_missing_file_returns_none plain_reader plain_writer View
           (mkArgs "in.vep" None "out.tsv") (mkWorld ∅ [])).
  reflexivity.
Defined.

(** ** The Merger *)

Lemma column_position_In (name : string) (cols : list string) :
  In name cols ->
  exists i, Annotate.column_position name cols = Ok i /\ nth_error cols i = Some name.
Proof.
  induction cols as [|c cols IH]; simpl; [intros []|].
  intros H. destruct (String.eqb_spec c name) as [->|Hne].
  - exists 0. split; reflexivity.
  - destruct H as [H|H]; [contradiction|].
    destruct (IH H) as (i & -> & Hi). exists (S i). split; [reflexivity|exact Hi].
Qed.

Lemma column_position_not_In (name : string) (cols : list string) :
  ~ In name cols -> Annotate.column_position name cols = Raise KeyError.
Proof.
  induction cols as [|c cols IH]; simpl; [reflexivity|].
  intros H. destruct (String.eqb_spec c name) as [->|Hne].
  - exfalso. apply H. left. reflexivity.
  - rewrite IH; [reflexivity|]. intros Hin. apply H. right. exact Hin.
Qed.

Lemma In_column_values (name : string) (t : Annotate.Table) (i : nat)
    (row : list string) (v : string) :
  Annotate.column_position name (Annotate.columns t) = Ok i ->
  In row (Annotate.rows t) -> Annotate.cell i row = Some v ->
  In v (column_values name t).
Proof.
  intros Hi Hrow Hv. unfold column_values. rewrite Hi.
  apply list_elem_of_In, list_elem_of_omap.
  exists row. split; [apply list_elem_of_In; exact Hrow|exact Hv].
Qed.

(** The join of two tables without a common key has no rows. *)
Lemma merge_inner_no_match (left right : Annotate.Table) (left_on right_on : string) :
  In left_on (Annotate.columns left) ->
  In right_on (Annotate.columns right) ->
  (forall v, In v (column_values left_on left) -> ~ In v (column_values right_on right)) ->
  exists merged,
    Annotate.merge_inner left right left_on right_on = Ok merged
    /\ Annotate.rows merged = [].
Proof.
  intros Hl Hr Hno.
  destruct (column_position_In _ _ Hl) as (li & Hli & _).
  destruct (column_position_In _ _ Hr) as (ri & Hri & _).
  unfold Annotate.merge_inner. rewrite Hli, Hri. simpl.
  eexists. split; [reflexivity|]. simpl.
  assert (Hrows : forall ls, (forall l, In l ls -> In l (Annotate.rows left)) ->
            flat_map (fun l => List.map (fun r => l ++ r)
                       (List.filter (fun r => Annotate.same_key (Annotate.cell li l)
                                                                (Annotate.cell ri r))
                                    (Annotate.rows right))) ls = []).
  { induction ls as [|l ls IH]; intros Hsub; simpl; [reflexivity|].
    rewrite IH by (intros l' Hl'; apply Hsub; right; exact Hl').
    rewrite app_nil_r.
    assert (Hf : forall rs, (forall r, In r rs -> In r (Annotate.rows right)) ->
              List.filter (fun r => Annotate.same_key (Annotate.cell li l)
                                                      (Annotate.cell ri r)) rs = []).
    { induction rs as [|r rs IHr]; intros Hsubr; simpl; [reflexivity|].
      destruct (Annotate.cell li l) as [a|] eqn:Ea;
        destruct (Annotate.cell ri r) as [b|] eqn:Eb; simpl;
        try (apply IHr; intros r' Hr'; apply Hsubr; right; exact Hr').
      destruct (String.eqb_spec a b) as [->|Hne];
        [|apply IHr; intros r' Hr'; apply Hsubr; right; exact Hr'].
      exfalso. apply (Hno b).
      - apply (In_column_values left_on left li l b Hli); [|exact Ea].
        apply Hsub. left. reflexivity.
      - apply (In_column_values right_on right ri r b Hri); [|exact Eb].
        apply Hsubr. left. reflexivity. }
    rewrite Hf by (intros r Hr'; exact Hr'). reflexivity. }
  apply Hrows. intros l Hl'. exact Hl'.
Qed.

(** C8: when both files hold a table with its key column and no
    [Uploaded_variation] value of the first is an [ID] value of the
    second, the Merger raises nothing and leaves at the output path a
    table without rows whose header is the header of the first followed by
    the header of the second; nothing else in the world changes. *)
Theorem merger_no_match_writes_header (args : Annotate.Args) (w : Annotate.World)
    (vep_df regenie_df : Annotate.Table) :
  Annotate.files w !! Annotate.vep args = Some vep_df ->
  Annotate.files w !! Annotate.regenie args = Some regenie_df ->
  In "Uploaded_variation"%string (Annotate.columns vep_df) ->
  In "ID"%string (Annotate.columns regenie_df) ->
  (forall v, In v (column_values "Uploaded_variation" vep_df) ->
             ~ In v (column_values "ID" regenie_df)) ->
  Annotate.main args w
  = (Annotate.mkWorld
       (<[Annotate.out args :=
            Annotate.mkTable (Annotate.columns vep_df ++ Annotate.columns regenie_df) []]>
          (Annotate.files w)),
     Ok tt).
Proof.
  intros Hv Hr Hcv Hcr Hno.
  destruct (merge_inner_no_match vep_df regenie_df _ _ Hcv Hcr Hno) as (m & Hm & Hrows).
  unfold Annotate.main, bindM, Annotate.read_csv, inspect, eval.
  rewrite Hv, Hr, Hm.
  unfold Annotate.empty. rewrite Hrows. reflexivity.
Qed.

Lemma merger_no_match_witness :
  Annotate.files
    (fst (Annotate.main (Annotate.mkArgs "vep.tsv" "regenie.tsv" "out.tsv")
                        sample_merger_world)) !! "out.tsv"%string
  = Some (Annotate.mkTable
            ["Uploaded_variation"; "Location"; "Extra"; "CHROM"; "ID"; "LOG10P"]%string []).
Proof.
  rewrite (merger_no_match_writes_header
             (Annotate.mkArgs "vep.tsv" "regenie.tsv" "out.tsv") sample_merger_world
             sample_vep_table sample_regenie_table).
  - reflexivity.
  - reflexivity.
  - reflexivity.
  - simpl. tauto.
  - simpl. tauto.
  - intros v Hv Hr. vm_compute in Hv, Hr.
    destruct Hv as [<-|[<-|[]]]; destruct Hr as [Hr|[]]; discriminate Hr.
Defined.

(** ** The Renamer *)

(** The row the Renamer makes of a row whose identifier has two parts. *)
Lemma rename_row_view (p : string) (ps : list string) (done todo : DataFrame)
    (index : nat) (row : Row dict) (part0 part1 : string) (rest : list string) :
  split "_" (Uploaded_variation row) = part0 :: part1 :: rest ->
  rename_row View (p :: ps) (done ++ (index, row) :: todo) (length done)
  = Ok (done ++ (index, set_Uploaded_variation row (renamed_form p part0 part1)) :: todo).
Proof.
  intros Hs. unfold rename_row.
  rewrite list_lookup_middle by reflexivity.
  rewrite Hs. simpl.
  rewrite insert_app_r_alt by lia.
  rewrite Nat.sub_diag. reflexivity.
Qed.

Lemma rename_row_copy (p : string) (ps : list string) (df : DataFrame) (i : nat) :
  (forall x, In x df -> 2 <= length (split "_" (variation x))) ->
  rename_row Copy (p :: ps) df i = Ok df.
Proof.
  intros H. unfold rename_row.
  destruct (df !! i) as [[index row]|] eqn:E; [|reflexivity].
  assert (Hin : In (index, row) df).
  { apply list_elem_of_In, list_elem_of_lookup. exists i. exact E. }
  specialize (H _ Hin). unfold variation in H. simpl in H.
  destruct (split "_" (Uploaded_variation row)) as [|a [|b l]]; simpl in *; try lia.
  reflexivity.
Qed.

Lemma rename_rows_view (p : string) (ps : list string) (todo done : DataFrame) :
  (forall x, In x todo -> 2 <= length (split "_" (variation x))) ->
  rename_rows View (p :: ps) (seq (length done) (length todo)) (done ++ todo)
  = Ok (done ++ List.map (rename_one p) todo).
Proof.
  revert done. induction todo as [|[index row] todo IH]; intros done H; simpl.
  - reflexivity.
  - assert (H2 := H (index, row) (or_introl eq_refl)).
    unfold variation in H2. simpl in H2.
    destruct (split "_" (Uploaded_variation row)) as [|part0 [|part1 rest]] eqn:Hs;
      simpl in H2; try lia.
    rewrite (rename_row_view p ps done todo index row part0 part1 rest Hs). simpl.
    specialize (IH (done ++ [(index, set_Uploaded_variation row (renamed_form p part0 part1))])).
    rewrite length_app in IH. simpl in IH.
    replace (length done + 1) with (S (length done)) in IH by lia.
    rewrite <- app_assoc in IH. simpl in IH.
    rewrite IH by (intros x Hx; apply H; right; exact Hx).
    rewrite <- app_assoc. simpl.
    unfold rename_one at 2. unfold variation, label. simpl. rewrite Hs. reflexivity.
Qed.

(** With views: given a prefix list with a first token and a table whose
    identifiers all have at least two ['_']-separated parts, the Renamer,
    writing through the rows that [iterrows] yields, returns the table
    with, in every row, the identifier
    [{prefix[0]}:contig_{part0}:{part1}], the same index label, and every
    other column as it was. *)
Lemma renamer_rewrites_identifiers (df : DataFrame) (p : string) (ps : list string) :
  (forall x, In x df -> 2 <= length (split "_" (variation x))) ->
  exists df',
    rename_snps_in_df View df (p :: ps) = Ok df'
    /\ length df' = length df
    /\ forall i index row, df !! i = Some (index, row) ->
         exists part0 part1 rest row',
           split "_" (Uploaded_variation row) = part0 :: part1 :: rest
           /\ df' !! i = Some (index, row')
           /\ Uploaded_variation row' = renamed_form p part0 part1
           /\ same_other_columns row row'.
Proof.
  intros H. exists (List.map (rename_one p) df). split; [|split].
  - unfold rename_snps_in_df.
    exact (rename_rows_view p ps df [] H).
  - apply length_map.
  - intros i index row Hi.
    assert (Hin : In (index, row) df).
    { apply list_elem_of_In, list_elem_of_lookup. exists i. exact Hi. }
    specialize (H _ Hin). unfold variation in H. simpl in H.
    destruct (split "_" (Uploaded_variation row)) as [|part0 [|part1 rest]] eqn:Hs;
      simpl in H; try lia.
    exists part0, part1, rest,
      (set_Uploaded_variation row (renamed_form p part0 part1)).
    split; [reflexivity|]. split; [|split].
    + change (List.map (rename_one p) df) with (rename_one p <$> df).
      rewrite list_lookup_fmap, Hi. simpl.
      unfold rename_one, variation, label. simpl. rewrite Hs. reflexivity.
    + reflexivity.
    + repeat split.
Qed.

(** C1: the assignment on line 113 is to the row that [iterrows] yields
    and the table itself is never assigned.  Where that row is a copy, the
    Renamer computes the new identifier, writes it to the copy and returns
    the table with the identifier it had: for the prefix list
    [sampleA, x, y] and the identifier [chr1_12345] the table comes back
    with [chr1_12345], not with [sampleA:contig_chr1:12345], which the
    docstring promises and which a view gives. *)
Theorem renamer_on_a_copy_keeps_the_identifier :
  rename_snps_in_df Copy [(0, loaded_row "chr1_12345" "1:12345" "IMPACT=LOW")]
                    ["sampleA"; "x"; "y"]%string
  = Ok [(0, loaded_row "chr1_12345" "1:12345" "IMPACT=LOW")]
  /\ List.map variation [(0, loaded_row "chr1_12345" "1:12345" "IMPACT=LOW")]
     = ["chr1_12345"%string]
  /\ split "_" "chr1_12345" = ["chr1"; "12345"]%string
  /\ renamed_form "sampleA" "chr1" "12345" = "sampleA:contig_chr1:12345"%string
  /\ rename_snps_in_df View [(0, loaded_row "chr1_12345" "1:12345" "IMPACT=LOW")]
                       ["sampleA"; "x"; "y"]%string
     = Ok [(0, set_Uploaded_variation (loaded_row "chr1_12345" "1:12345" "IMPACT=LOW")
                                      "sampleA:contig_chr1:12345")].
Proof. repeat split; reflexivity. Qed.

(** ** Sorting *)

Lemma insert_by_Permutation {A} (le : A -> A -> bool) (a : A) (l : list A) :
  Permutation (insert_by le a l) (a :: l).
Proof.
  induction l as [|b l IH]; simpl; [reflexivity|].
  destruct (le a b); [reflexivity|].
  rewrite IH. apply perm_swap.
Qed.

Lemma sort_by_Permutation {A} (le : A -> A -> bool) (l : list A) :
  Permutation (sort_by le l) l.
Proof.
  induction l as [|a l IH]; simpl; [reflexivity|].
  rewrite insert_by_Permutation, IH. reflexivity.
Qed.

Lemma insert_by_Sorted {A} (le : A -> A -> bool) (a : A) (l : list A) :
  (forall x y, le x y = true \/ le y x = true) ->
  Sorted (fun x y => le x y = true) l ->
  Sorted (fun x y => le x y = true) (insert_by le a l).
Proof.
  intros Htot. induction l as [|b l IH]; intros Hs; simpl.
  - repeat constructor.
  - destruct (le a b) eqn:E.
    + constructor; [exact Hs|]. constructor. exact E.
    + inversion Hs as [|? ? Hs' Hd]; subst.
      constructor; [apply IH; exact Hs'|].
      destruct l as [|c l]; simpl.
      * constructor. destruct (Htot a b) as [H|H]; [congruence|exact H].
      * destruct (le a c).
        -- constructor. destruct (Htot a b) as [H|H]; [congruence|exact H].
        -- inversion Hd; subst. constructor. assumption.
Qed.

Lemma sort_by_Sorted {A} (le : A -> A -> bool) (l : list A) :
  (forall x y, le x y = true \/ le y x = true) ->
  Sorted (fun x y => le x y = true) (sort_by le l).
Proof.
  intros Htot. induction l as [|a l IH]; simpl; [constructor|].
  apply insert_by_Sorted; assumption.
Qed.

(** ** Grouping *)

Lemma group_keys_In (df : DataFrame) (key : string) :
  In key (group_keys df) <-> In key (List.map location df).
Proof.
  unfold group_keys. split; intros H.
  - apply (nodup_In String.string_dec).
    eapply Permutation_in; [apply sort_by_Permutation|exact H].
  - eapply Permutation_in; [symmetry; apply sort_by_Permutation|].
    apply nodup_In. exact H.
Qed.

Lemma group_keys_NoDup (df : DataFrame) : List.NoDup (group_keys df).
Proof.
  unfold group_keys.
  eapply Permutation_NoDup; [symmetry; apply sort_by_Permutation|].
  apply NoDup_nodup.
Qed.

Lemma groupby_keys (df : DataFrame) :
  List.map fst (groupby_Location df) = group_keys df.
Proof.
  unfold groupby_Location. rewrite List.map_map. simpl. apply List.map_id.
Qed.

Lemma groupby_In (df : DataFrame) (key : string) (group : DataFrame) :
  In (key, group) (groupby_Location df) <->
  In key (List.map location df)
  /\ group = List.filter (fun x => String.eqb (location x) key) df.
Proof.
  unfold groupby_Location. rewrite in_map_iff. split.
  - intros (k & E & Hk). inversion E; subst.
    split; [apply group_keys_In; exact Hk|reflexivity].
  - intros (Hk & ->). exists key. split; [reflexivity|apply group_keys_In; exact Hk].
Qed.

Lemma group_rows (df : DataFrame) (key : string) (group : DataFrame) (x : Series) :
  In (key, group) (groupby_Location df) ->
  (In x group <-> In x df /\ location x = key).
Proof.
  intros H. apply groupby_In in H as (_ & ->).
  rewrite filter_In. rewrite String.eqb_eq. reflexivity.
Qed.

Lemma group_not_nil (df : DataFrame) (key : string) (group : DataFrame) :
  In (key, group) (groupby_Location df) -> group <> [].
Proof.
  intros H. pose proof (group_rows df key group) as R.
  apply groupby_In in H as H'. destruct H' as (Hk & _).
  apply in_map_iff in Hk as (x & Hx & Hin).
  intros ->. apply (R x H). split; assumption.
Qed.

Lemma NoDup_map_filter {A B} (f : A -> B) (p : A -> bool) (l : list A) :
  List.NoDup (List.map f l) -> List.NoDup (List.map f (List.filter p l)).
Proof.
  induction l as [|a l IH]; simpl; intros H; [constructor|].
  inversion H as [|? ? Hn Hd]; subst.
  destruct (p a); simpl; [|apply IH; exact Hd].
  constructor; [|apply IH; exact Hd].
  intros Hin. apply Hn. apply in_map_iff in Hin as (x & E & Hx).
  apply in_map_iff. exists x. split; [exact E|].
  apply filter_In in Hx. tauto.
Qed.

Lemma group_labels_NoDup (df : DataFrame) (key : string) (group : DataFrame) :
  List.NoDup (List.map label df) ->
  In (key, group) (groupby_Location df) ->
  List.NoDup (List.map label group).
Proof.
  intros Hd H. apply groupby_In in H as (_ & ->).
  apply NoDup_map_filter. exact Hd.
Qed.

(** ** The scan of a group *)

Lemma loc_label (group : DataFrame) (x : Series) :
  List.NoDup (List.map label group) -> In x group -> loc group (label x) = Ok x.
Proof.
  unfold loc. induction group as [|y group IH]; simpl; intros Hd Hin; [contradiction|].
  inversion Hd as [|? ? Hn Hd']; subst.
  destruct Hin as [->|Hin].
  - rewrite Nat.eqb_refl. reflexivity.
  - destruct (Nat.eqb_spec (label y) (label x)) as [E|_].
    + exfalso. apply Hn. rewrite E. apply in_map. exact Hin.
    + apply IH; assumption.
Qed.

Lemma loc_found (group : DataFrame) (x : Series) :
  In x group -> exists y, loc group (label x) = Ok y /\ In y group /\ label y = label x.
Proof.
  unfold loc. intros Hin.
  destruct (List.find (fun y => label y =? label x) group) as [y|] eqn:E.
  - exists y. apply find_some in E as (Hy & Hl). apply Nat.eqb_eq in Hl.
    repeat split; assumption.
  - exfalso. pose proof (find_none _ _ E x Hin) as H. simpl in H.
    rewrite Nat.eqb_refl in H. discriminate.
Qed.

(** The scan stops at the first row without a distance, having appended
    it; without such a row it runs to the end and appends nothing. *)
Lemma scan_spec (group : DataFrame) (st : Locals) :
  scan group st =
  match first_without_distance group with
  | Some x => append_row x (bind_index_row x st)
  | None => match last group with
            | Some x => bind_index_row x st
            | None => st
            end
  end.
Proof.
  unfold first_without_distance. revert st.
  induction group as [|x group IH]; intros st; simpl; [reflexivity|].
  destruct (negb (mem "DISTANCE" (Extra x.2))) eqn:E; [reflexivity|].
  rewrite IH.
  destruct (List.find _ group) as [y|]; [reflexivity|].
  destruct group as [|z group]; [reflexivity|].
  simpl. destruct (last (z :: group)) eqn:L; [reflexivity|].
  exfalso. clear -L. revert z L. induction group as [|a g IHg]; intros z L; simpl in L.
  - discriminate.
  - eapply IHg. exact L.
Qed.

Lemma scan_lowest_distance_idx (group : DataFrame) (st : Locals) :
  lowest_distance_idx (scan group st) = lowest_distance_idx st.
Proof.
  revert st. induction group as [|x group IH]; intros st; simpl; [reflexivity|].
  destruct (negb (mem "DISTANCE" (Extra x.2))); [reflexivity|].
  rewrite IH. reflexivity.
Qed.

Lemma last_In {A} (l : list A) (x : A) : last l = Some x -> In x l.
Proof.
  intros H. apply last_Some in H as (l' & ->).
  apply in_or_app. right. left. reflexivity.
Qed.

Lemma last_not_nil {A} (l : list A) : l <> [] -> exists x, last l = Some x.
Proof.
  intros H. destruct (last l) as [x|] eqn:E; [exists x; reflexivity|].
  apply last_None in E. contradiction.
Qed.

Lemma chosen_In (group : DataFrame) (x : Series) : chosen group = Some x -> In x group.
Proof.
  unfold chosen, first_without_distance. intros H.
  assert (G : match List.find (fun x => negb (mem "DISTANCE" (Extra x.2))) group with
              | Some y => Some y
              | None => last group
              end = Some x -> In x group).
  { destruct (List.find _ group) as [y|] eqn:E.
    - intros [= ->]. apply find_some in E. tauto.
    - apply last_In. }
  destruct group as [|a [|b g]]; [discriminate| |exact (G H)].
  injection H as ->. left. reflexivity.
Qed.

Lemma chosen_not_nil (group : DataFrame) : group <> [] -> exists x, chosen group = Some x.
Proof.
  intros H. unfold chosen.
  destruct group as [|a [|b g]]; [contradiction|eauto|].
  destruct (first_without_distance (a :: b :: g)); [eauto|].
  apply last_not_nil. discriminate.
Qed.

(** What a group appends is its chosen row, once or twice. *)
Lemma appended_chosen (group : DataFrame) (x : Series) :
  chosen group = Some x -> appended group = [x] \/ appended group = [x; x].
Proof.
  unfold chosen, appended. destruct group as [|a [|b g]]; [discriminate| |].
  - intros [= ->]. left. reflexivity.
  - destruct (first_without_distance (a :: b :: g)).
    + intros [= ->]. right. reflexivity.
    + intros ->. left. reflexivity.
Qed.

(** After the scan of a larger group [lowest_distance_idx] is [None],
    and the condition after the loop is true without its right operand. *)
Lemma post_loop_condition_true (cmp : Series -> Series -> result bool)
    (group : DataFrame) (st : Locals) :
  post_loop_condition cmp group (scan group (set_lowest_distance_idx None st)) = Ok true.
Proof.
  unfold post_loop_condition. rewrite scan_lowest_distance_idx. reflexivity.
Qed.

Section SelectorFacts.

Variable compare_distance : Series -> Series -> result bool.

(** The step of a group of more than one row, given the row that
    [group.loc] finds under the label of the chosen row. *)
Lemma select_in_larger_group (group : DataFrame) (st : Locals) (x y : Series) :
  (length group =? 1) = false ->
  chosen group = Some x ->
  loc group (label x) = Ok y ->
  exists st',
    select_in_group compare_distance group st = Ok st'
    /\ selected_rows st'
       = selected_rows st
         ++ match first_without_distance group with
            | Some _ => [x; y]
            | None => [y]
            end.
Proof.
  intros Hlen Hc Hy. unfold select_in_group. rewrite Hlen.
  cbv zeta. rewrite post_loop_condition_true. unfold bind at 1.
  rewrite scan_spec.
  assert (Hc' : match first_without_distance group with
                | Some z => Some z
                | None => last group
                end = Some x).
  { unfold chosen in Hc. destruct group as [|a [|b g]]; [discriminate| |exact Hc].
    discriminate Hlen. }
  destruct (first_without_distance group) as [z|].
  - injection Hc' as ->. simpl. rewrite Hy. simpl.
    eexists. split; [reflexivity|]. simpl. rewrite <- app_assoc. reflexivity.
  - rewrite Hc'. simpl. rewrite Hy. simpl.
    eexists. split; reflexivity.
Qed.

(** The step of a group, for a group with distinct labels. *)
Lemma select_in_group_spec (group : DataFrame) (st : Locals) :
  List.NoDup (List.map label group) -> group <> [] ->
  exists st',
    select_in_group compare_distance group st = Ok st'
    /\ selected_rows st' = selected_rows st ++ appended group.
Proof.
  intros Hd Hne.
  destruct (length group =? 1) eqn:Hlen.
  - destruct group as [|a [|b g]]; [contradiction| |discriminate Hlen].
    unfold select_in_group. simpl. eexists. split; reflexivity.
  - destruct (chosen_not_nil group Hne) as (x & Hc).
    pose proof (loc_label group x Hd (chosen_In _ _ Hc)) as Hy.
    destruct (select_in_larger_group group st x x Hlen Hc Hy) as (st' & E & S).
    exists st'. split; [exact E|]. rewrite S. f_equal.
    unfold appended, chosen in *.
    destruct group as [|a [|b g]]; [contradiction|discriminate Hlen|].
    destruct (first_without_distance (a :: b :: g)).
    + injection Hc as ->. reflexivity.
    + rewrite Hc. reflexivity.
Qed.

(** The step of a group raises nothing, whatever the labels. *)
Lemma select_in_group_total (group : DataFrame) (st : Locals) :
  group <> [] ->
  exists st' more,
    select_in_group compare_distance group st = Ok st'
    /\ selected_rows st' = selected_rows st ++ more.
Proof.
  intros Hne.
  destruct (length group =? 1) eqn:Hlen.
  - destruct group as [|a [|b g]]; [contradiction| |discriminate Hlen].
    unfold select_in_group. simpl. eexists. eexists. split; reflexivity.
  - destruct (chosen_not_nil group Hne) as (x & Hc).
    destruct (loc_found group x (chosen_In _ _ Hc)) as (y & Hy & _).
    destruct (select_in_larger_group group st x y Hlen Hc Hy) as (st' & E & S).
    exists st'. eexists. split; [exact E|exact S].
Qed.

(** The step of a group does not depend on the comparison. *)
Lemma select_in_group_any_comparison (other : Series -> Series -> result bool)
    (group : DataFrame) (st : Locals) :
  select_in_group compare_distance group st = select_in_group other group st.
Proof.
  unfold select_in_group. destruct (length group =? 1); [reflexivity|].
  cbv zeta. rewrite !post_loop_condition_true. reflexivity.
Qed.

Lemma for_groups_spec (grouped : list (string * DataFrame)) (st : Locals) :
  (forall key group, In (key, group) grouped ->
      List.NoDup (List.map label group) /\ group <> []) ->
  exists st',
    for_groups compare_distance grouped st = Ok st'
    /\ selected_rows st'
       = selected_rows st ++ flat_map (fun kg => appended (snd kg)) grouped.
Proof.
  revert st. induction grouped as [|[key group] grouped IH]; intros st H; simpl.
  - exists st. split; [reflexivity|]. rewrite app_nil_r. reflexivity.
  - destruct (H key group (or_introl eq_refl)) as (Hd & Hne).
    destruct (select_in_group_spec group st Hd Hne) as (st1 & -> & E1). simpl.
    destruct (IH st1) as (st2 & -> & E2).
    { intros k g Hin. apply (H k g). right. exact Hin. }
    exists st2. split; [reflexivity|].
    rewrite E2, E1, <- app_assoc. reflexivity.
Qed.

Lemma for_groups_total (grouped : list (string * DataFrame)) (st : Locals) :
  (forall key group, In (key, group) grouped -> group <> []) ->
  exists st', for_groups compare_distance grouped st = Ok st'.
Proof.
  revert st. induction grouped as [|[key group] grouped IH]; intros st H; simpl.
  - exists st. reflexivity.
  - destruct (select_in_group_total group st (H key group (or_introl eq_refl)))
      as (st1 & more & -> & _). simpl.
    apply IH. intros k g Hin. apply (H k g). right. exact Hin.
Qed.

Lemma for_groups_any_comparison (other : Series -> Series -> result bool)
    (grouped : list (string * DataFrame)) (st : Locals) :
  for_groups compare_distance grouped st = for_groups other grouped st.
Proof.
  revert st. induction grouped as [|[key group] grouped IH]; intros st; simpl.
  - reflexivity.
  - rewrite (select_in_group_any_comparison other).
    destruct (select_in_group other group st); simpl; [apply IH|reflexivity].
Qed.

End SelectorFacts.

(** ** De-duplication *)

Lemma seen_In (v : string) (seen : list string) :
  existsb (String.eqb v) seen = true <-> In v seen.
Proof.
  rewrite existsb_exists. split.
  - intros (y & Hy & E). apply String.eqb_eq in E. subst. exact Hy.
  - intros H. exists v. split; [exact H|apply String.eqb_refl].
Qed.

Lemma drop_duplicates_seen_In (seen : list string) (df : DataFrame) (x : Series) :
  In x (drop_duplicates_seen seen df) <->
  ~ In (variation x) seen /\ first_with_variation (variation x) df = Some x.
Proof.
  unfold first_with_variation. revert seen.
  induction df as [|y df IH]; intros seen; simpl.
  - split; [intros []|intros (_ & E); discriminate E].
  - destruct (existsb (String.eqb (variation y)) seen) eqn:S.
    + apply seen_In in S. rewrite IH.
      destruct (String.eqb_spec (variation y) (variation x)) as [E|_]; [|reflexivity].
      rewrite <- E. tauto.
    + assert (Hy : ~ In (variation y) seen).
      { intros H. apply seen_In in H. congruence. }
      simpl. rewrite IH. simpl.
      destruct (String.eqb_spec (variation y) (variation x)) as [E|Hne].
      * split.
        -- intros [->|(H & _)]; [split; [exact Hy|reflexivity]|].
           exfalso. apply H. left. exact E.
        -- intros (_ & [= ->]). left. reflexivity.
      * split.
        -- intros [->|(H & F)]; [contradiction|].
           split; [|exact F]. intros Hs. apply H. right. exact Hs.
        -- intros (H & F). right. split; [|exact F].
           intros [Hs|Hs]; [contradiction|exact (H Hs)].
Qed.

(** A row survives the de-duplication exactly if it is the first row of
    the frame with its identifier. *)
Lemma drop_duplicates_In (df : DataFrame) (x : Series) :
  In x (drop_duplicates df) <-> first_with_variation (variation x) df = Some x.
Proof.
  unfold drop_duplicates. rewrite drop_duplicates_seen_In. simpl. tauto.
Qed.

Lemma first_with_variation_In (v : string) (df : DataFrame) (x : Series) :
  first_with_variation v df = Some x -> In x df /\ variation x = v.
Proof.
  unfold first_with_variation. intros H. apply find_some in H as (Hin & E).
  apply String.eqb_eq in E. split; assumption.
Qed.

Lemma drop_duplicates_seen_NoDup (seen : list string) (df : DataFrame) :
  List.NoDup (List.map variation (drop_duplicates_seen seen df)).
Proof.
  revert seen. induction df as [|y df IH]; intros seen; simpl; [constructor|].
  destruct (existsb (String.eqb (variation y)) seen) eqn:S; [apply IH|].
  simpl. constructor; [|apply IH].
  intros H. apply in_map_iff in H as (x & E & Hx).
  apply drop_duplicates_seen_In in Hx as (Hn & _).
  apply Hn. left. symmetry. exact E.
Qed.

Lemma drop_duplicates_NoDup (df : DataFrame) :
  List.NoDup (List.map variation (drop_duplicates df)).
Proof. apply drop_duplicates_seen_NoDup. Qed.

Lemma drop_duplicates_incl (df : DataFrame) (x : Series) :
  In x (drop_duplicates df) -> In x df.
Proof.
  intros H. apply drop_duplicates_In in H.
  apply first_with_variation_In in H. tauto.
Qed.

(** ** The Selector as a whole *)

Lemma groups_well_formed (df : DataFrame) :
  List.NoDup (List.map label df) ->
  forall key group, In (key, group) (groupby_Location df) ->
    List.NoDup (List.map label group) /\ group <> [].
Proof.
  intros Hd key group H. split.
  - eapply group_labels_NoDup; eassumption.
  - eapply group_not_nil; eassumption.
Qed.

(** For a frame with distinct labels the Selector returns the group-wise
    selection without its duplicates. *)
Lemma select_rows_with_spec (cmp : Series -> Series -> result bool) (df : DataFrame) :
  List.NoDup (List.map label df) ->
  select_rows_with cmp (Some df) = Ok (drop_duplicates (selection df)).
Proof.
  intros Hd. unfold select_rows_with.
  destruct (for_groups_spec cmp (groupby_Location df) (mkLocals [] None None)
              (groups_well_formed df Hd)) as (st & -> & E).
  simpl. rewrite E. reflexivity.
Qed.

Lemma select_rows_with_total (cmp : Series -> Series -> result bool) (df : DataFrame) :
  exists out, select_rows_with cmp (Some df) = Ok out
              /\ List.NoDup (List.map variation out).
Proof.
  unfold select_rows_with.
  destruct (for_groups_total cmp (groupby_Location df) (mkLocals [] None None))
    as (st & ->).
  { intros key group H. eapply group_not_nil. exact H. }
  simpl. eexists. split; [reflexivity|apply drop_duplicates_NoDup].
Qed.

(** C7: for every table the Selector returns a table, and no two of its
    rows have the same [Uploaded_variation]. *)
Theorem selector_output_distinct_variations (df : DataFrame) :
  exists out,
    select_highest_impact_rows (Some df) = Ok out
    /\ List.NoDup (List.map variation out).
Proof. apply select_rows_with_total. Qed.

(** C10: in the step of a group of more than one row
    [lowest_distance_idx] is [None] when the condition after the loop is
    evaluated, whatever it was after the group before; the condition is
    true without its comparison, so that the Selector returns the same
    with any comparison in its place, one that always raises a
    [KeyError] included, and it returns a table for every frame. *)
Theorem comparison_after_loop_never_evaluated
    (cmp : Series -> Series -> result bool) (df : DataFrame) :
  (forall group st,
      lowest_distance_idx (scan group (set_lowest_distance_idx None st)) = None)
  /\ (forall group st,
         post_loop_condition cmp group (scan group (set_lowest_distance_idx None st))
         = Ok true)
  /\ select_rows_with cmp (Some df) = select_highest_impact_rows (Some df)
  /\ select_rows_with (fun _ _ => Raise KeyError) (Some df)
     = select_highest_impact_rows (Some df)
  /\ exists out, select_highest_impact_rows (Some df) = Ok out.
Proof.
  split; [|split; [|split; [|split]]].
  - intros group st. rewrite scan_lowest_distance_idx. reflexivity.
  - intros group st. apply post_loop_condition_true.
  - unfold select_highest_impact_rows, select_rows_with.
    rewrite (for_groups_any_comparison cmp distance_lt). reflexivity.
  - unfold select_highest_impact_rows, select_rows_with.
    rewrite (for_groups_any_comparison (fun _ _ => Raise KeyError) distance_lt).
    reflexivity.
  - destruct (select_rows_with_total distance_lt df) as (out & E & _).
    exists out. exact E.
Qed.

Lemma first_without_distance_app (pre post : DataFrame) (x : Series) :
  (forall y, In y pre -> mem "DISTANCE" (Extra (snd y)) = true) ->
  mem "DISTANCE" (Extra (snd x)) = false ->
  first_without_distance (pre ++ x :: post) = Some x.
Proof.
  unfold first_without_distance. intros Hpre Hx.
  induction pre as [|y pre IH]; simpl.
  - rewrite Hx. reflexivity.
  - rewrite (Hpre y (or_introl eq_refl)). simpl.
    apply IH. intros z Hz. apply Hpre. right. exact Hz.
Qed.

Lemma first_without_distance_none (group : DataFrame) :
  (forall y, In y group -> mem "DISTANCE" (Extra (snd y)) = true) ->
  first_without_distance group = None.
Proof.
  unfold first_without_distance. intros H.
  induction group as [|y group IH]; simpl; [reflexivity|].
  rewrite (H y (or_introl eq_refl)). simpl.
  apply IH. intros z Hz. apply H. right. exact Hz.
Qed.

Lemma chosen_larger (group : DataFrame) :
  1 < length group ->
  chosen group = match first_without_distance group with
                 | Some x => Some x
                 | None => last group
                 end.
Proof.
  intros H. destruct group as [|a [|b g]]; simpl in H; try lia. reflexivity.
Qed.

(** The rows of the group-wise selection are the chosen rows of the
    groups. *)
Lemma selection_In (df : DataFrame) (y : Series) :
  In y (selection df) <->
  exists key group, In (key, group) (groupby_Location df) /\ chosen group = Some y.
Proof.
  unfold selection. rewrite in_flat_map. split.
  - intros ([key group] & Hg & Hy). simpl in Hy.
    exists key, group. split; [exact Hg|].
    destruct (chosen_not_nil group (group_not_nil _ _ _ Hg)) as (x & Hx).
    destruct (appended_chosen group x Hx) as [E|E]; rewrite E in Hy; simpl in Hy;
      intuition congruence.
  - intros (key & group & Hg & Hy). exists (key, group). split; [exact Hg|].
    simpl. destruct (appended_chosen group y Hy) as [E|E]; rewrite E; left; reflexivity.
Qed.

Lemma group_unique (df : DataFrame) (key : string) (g g' : DataFrame) :
  In (key, g) (groupby_Location df) -> In (key, g') (groupby_Location df) -> g = g'.
Proof.
  intros H H'. apply groupby_In in H as (_ & ->). apply groupby_In in H' as (_ & ->).
  reflexivity.
Qed.

(** A selected row at a location is the chosen row of the group of that
    location. *)
Lemma selection_at (df : DataFrame) (key : string) (group : DataFrame) (x y : Series) :
  In (key, group) (groupby_Location df) -> chosen group = Some x ->
  In y (selection df) -> location y = key -> y = x.
Proof.
  intros Hg Hx Hy Hl.
  apply selection_In in Hy as (k' & g' & Hg' & Hy).
  pose proof (chosen_In _ _ Hy) as Hin.
  apply (group_rows df k' g' y Hg') in Hin as (_ & E).
  assert (Ek : k' = key) by congruence.
  rewrite Ek in Hg'.
  rewrite (group_unique df key g' group Hg' Hg) in Hy. congruence.
Qed.

(** ** One row per location, and which one *)

Lemma appended_In (group : DataFrame) (z : Series) :
  group <> [] -> (In z (appended group) <-> chosen group = Some z).
Proof.
  intros Hne. destruct (chosen_not_nil group Hne) as (x & Hx). split.
  - intros H. destruct (appended_chosen group x Hx) as [E|E]; rewrite E in H;
      simpl in H; intuition congruence.
  - intros H. destruct (appended_chosen group z H) as [E|E]; rewrite E; left; reflexivity.
Qed.

Lemma first_with_variation_app (v : string) (l1 l2 : list Series) :
  first_with_variation v (l1 ++ l2)
  = match first_with_variation v l1 with
    | Some x => Some x
    | None => first_with_variation v l2
    end.
Proof.
  unfold first_with_variation. induction l1 as [|a l1 IH]; simpl; [reflexivity|].
  destruct (String.eqb (variation a) v); [reflexivity|exact IH].
Qed.

Lemma first_with_variation_None (v : string) (l : list Series) :
  first_with_variation v l = None <-> forall z, In z l -> variation z <> v.
Proof.
  unfold first_with_variation. split.
  - intros H z Hz E. pose proof (find_none _ _ H z Hz) as F. simpl in F.
    apply String.eqb_neq in F. contradiction.
  - intros H. induction l as [|a l IH]; simpl; [reflexivity|].
    destruct (String.eqb_spec (variation a) v) as [E|_].
    + exfalso. apply (H a); [left; reflexivity|exact E].
    + apply IH. intros z Hz. apply H. right. exact Hz.
Qed.

Lemma NoDup_map_injective {A B} (f : A -> B) (l : list A) (a b : A) :
  List.NoDup (List.map f l) -> In a l -> In b l -> f a = f b -> a = b.
Proof.
  induction l as [|c l IH]; simpl; intros Hd Ha Hb E; [contradiction|].
  inversion Hd as [|? ? Hn Hd']; subst.
  destruct Ha as [->|Ha], Hb as [->|Hb].
  - reflexivity.
  - exfalso. apply Hn. rewrite E. apply in_map. exact Hb.
  - exfalso. apply Hn. rewrite <- E. apply in_map. exact Ha.
  - apply IH; assumption.
Qed.

Lemma all_equal_NoDup_length {A B} (f : A -> B) (l : list A) :
  (forall a b, In a l -> In b l -> a = b) ->
  List.NoDup (List.map f l) -> length l <= 1.
Proof.
  intros Heq Hd. destruct l as [|a [|b l]]; simpl; try lia.
  exfalso. assert (a = b) by (apply Heq; simpl; tauto). subst b.
  simpl in Hd. inversion Hd as [|? ? Hn _]; subst. apply Hn. left. reflexivity.
Qed.

Section OneRowPerLocation.

Variable df : DataFrame.
Hypothesis labels_distinct : List.NoDup (List.map label df).

Let out : DataFrame := drop_duplicates (selection df).

Lemma out_is_output : select_highest_impact_rows (Some df) = Ok out.
Proof. apply select_rows_with_spec. exact labels_distinct. Qed.

Lemma out_rows_of_input (y : Series) : In y out -> In y df.
Proof.
  intros H. apply drop_duplicates_incl in H.
  apply selection_In in H as (k & g & Hg & Hy).
  apply chosen_In in Hy. apply (group_rows df k g y Hg) in Hy. tauto.
Qed.

Lemma rows_at_most_one (key : string) : rows_at key out <= 1.
Proof.
  unfold rows_at.
  apply (all_equal_NoDup_length variation).
  - intros a b Ha Hb.
    apply filter_In in Ha as (Ha & La). apply filter_In in Hb as (Hb & Lb).
    apply String.eqb_eq in La, Lb.
    apply drop_duplicates_incl in Ha, Hb.
    apply selection_In in Ha as Ha'. destruct Ha' as (k & g & Hg & Hc).
    assert (k = key).
    { pose proof (chosen_In _ _ Hc) as Hin.
      apply (group_rows df k g a Hg) in Hin. destruct Hin; congruence. }
    subst k. symmetry. eapply selection_at; eassumption.
  - apply NoDup_map_filter. apply drop_duplicates_NoDup.
Qed.

Lemma rows_at_In (key : string) (x : Series) :
  In x out -> location x = key -> rows_at key out = 1.
Proof.
  intros Hx Hl. pose proof (rows_at_most_one key) as Hle.
  assert (Hin : In x (List.filter (fun y => String.eqb (location y) key) out)).
  { apply filter_In. split; [exact Hx|]. apply String.eqb_eq. exact Hl. }
  unfold rows_at in *.
  destruct (List.filter (fun y => String.eqb (location y) key) out);
    [contradiction|simpl in *; lia].
Qed.

Section AtGroup.

Variables (before after : list (string * DataFrame)) (key : string)
          (group : DataFrame) (x : Series).
Hypothesis position : groupby_Location df = before ++ (key, group) :: after.
Hypothesis chosen_x : chosen group = Some x.

Lemma group_in : In (key, group) (groupby_Location df).
Proof. rewrite position. apply in_or_app. right. left. reflexivity. Qed.

Lemma before_in (k' : string) (g' : DataFrame) :
  In (k', g') before -> In (k', g') (groupby_Location df) /\ k' <> key.
Proof.
  intros H. split.
  - rewrite position. apply in_or_app. left. exact H.
  - pose proof (group_keys_NoDup df) as Hd.
    rewrite <- groupby_keys, position, List.map_app in Hd. simpl in Hd.
    apply NoDup_remove_2 in Hd. intros ->. apply Hd.
    apply in_or_app. left.
    change key with (fst (key, g')). apply in_map. exact H.
Qed.

Lemma location_x : location x = key.
Proof.
  pose proof (chosen_In _ _ chosen_x) as Hin.
  apply (group_rows df key group x group_in) in Hin. tauto.
Qed.

Lemma before_rows (z : Series) :
  In z (flat_map (fun kg => appended (snd kg)) before) ->
  exists k' g', In (k', g') before /\ chosen g' = Some z /\ z <> x.
Proof.
  intros H. apply in_flat_map in H as ([k' g'] & Hb & Hz). simpl in Hz.
  destruct (before_in k' g' Hb) as (Hg & Hk).
  apply appended_In in Hz; [|eapply group_not_nil; exact Hg].
  exists k', g'. split; [exact Hb|]. split; [exact Hz|].
  intros ->. apply Hk. rewrite <- location_x.
  pose proof (chosen_In _ _ Hz) as Hin.
  apply (group_rows df k' g' x Hg) in Hin. destruct Hin as (_ & E).
  symmetry. exact E.
Qed.

(** The chosen row of a group is in the output exactly if no earlier
    group chose a row with its identifier. *)
Lemma chosen_in_output :
  In x out <->
  forall k' g' y, In (k', g') before -> chosen g' = Some y ->
                  variation y <> variation x.
Proof.
  unfold out. rewrite drop_duplicates_In.
  unfold selection. rewrite position, flat_map_app. simpl.
  rewrite first_with_variation_app.
  destruct (first_with_variation (variation x)
              (flat_map (fun kg => appended (snd kg)) before)) as [z|] eqn:F.
  - apply first_with_variation_In in F as (Hz & Ev).
    destruct (before_rows z Hz) as (k' & g' & Hb & Hc & Hne).
    split.
    + intros [= ->]. contradiction.
    + intros H. exfalso. exact (H k' g' z Hb Hc Ev).
  - split; intros _.
    + intros k' g' y Hb Hc.
      apply (proj1 (first_with_variation_None _ _) F).
      apply in_flat_map. exists (k', g'). split; [exact Hb|]. simpl.
      apply appended_In; [|exact Hc].
      eapply group_not_nil. apply (before_in k' g' Hb).
    + rewrite first_with_variation_app.
      destruct (appended_chosen group x chosen_x) as [E|E]; rewrite E;
        unfold first_with_variation; simpl; rewrite String.eqb_refl; reflexivity.
Qed.

End AtGroup.

End OneRowPerLocation.

(** C2, amended: for a table with distinct row labels the Selector
    returns a table with at most one row at each location; the rows at
    the location of a group are the chosen row of that group, a row of the
    input as it was; the chosen row is in the output exactly if no group
    earlier in the order of the groups chose a row with the same
    [Uploaded_variation], and is then the one row at its location.  When
    the identifiers of the input are all distinct there is exactly one row
    for each location of the input, for a group of one row that row. *)
Theorem selector_rows_per_location (df : DataFrame) :
  List.NoDup (List.map label df) ->
  exists out,
    select_highest_impact_rows (Some df) = Ok out
    /\ (forall y, In y out -> In y df)
    /\ (forall key, rows_at key out <= 1)
    /\ (forall before key group after x,
           groupby_Location df = before ++ (key, group) :: after ->
           chosen group = Some x ->
           (forall y, In y out -> location y = key -> y = x)
           /\ (In x out <->
               forall key' group' y, In (key', group') before ->
                 chosen group' = Some y -> variation y <> variation x)
           /\ (In x out -> rows_at key out = 1))
    /\ (List.NoDup (List.map variation df) ->
        one_row_per_location df out
        /\ forall key x, In (key, [x]) (groupby_Location df) -> In x out).
Proof.
  intros Hd. exists (drop_duplicates (selection df)).
  split; [apply out_is_output; exact Hd|].
  split; [apply out_rows_of_input|].
  split; [apply rows_at_most_one|].
  split.
  - intros before key group after x Hpos Hc.
    split; [|split].
    + intros y Hy Hl. apply drop_duplicates_incl in Hy.
      eapply selection_at; try eassumption.
      eapply group_in. exact Hpos.
    + eapply chosen_in_output; eassumption.
    + intros Hx. apply (rows_at_In df key x Hx).
      eapply location_x; eassumption.
  - intros Hv.
    assert (Hin : forall key group x,
               In (key, group) (groupby_Location df) -> chosen group = Some x ->
               In x (drop_duplicates (selection df))).
    { intros key group x Hg Hc.
      apply in_split in Hg as (before & after & Hpos).
      apply (chosen_in_output df before after key group x Hpos Hc).
      intros k' g' y Hb Hy E.
      destruct (before_in df before after key group Hpos k' g' Hb) as (Hg' & Hk).
      pose proof (chosen_In _ _ Hy) as Iy. pose proof (chosen_In _ _ Hc) as Ix.
      apply (group_rows df k' g' y Hg') in Iy as (Iy & Ly).
      assert (Hg : In (key, group) (groupby_Location df)) by (eapply group_in; exact Hpos).
      apply (group_rows df key group x Hg) in Ix as (Ix & Lx).
      assert (y = x) by (eapply NoDup_map_injective; eassumption).
      subst y. congruence. }
    split.
    + intros key Hk.
      assert (Hg : In (key, List.filter (fun x => String.eqb (location x) key) df)
                      (groupby_Location df)).
      { apply groupby_In. split; [exact Hk|reflexivity]. }
      destruct (chosen_not_nil _ (group_not_nil _ _ _ Hg)) as (x & Hc).
      apply (rows_at_In df key x); [eapply Hin; eassumption|].
      pose proof (chosen_In _ _ Hc) as Ix.
      apply (group_rows df key _ x Hg) in Ix. tauto.
    + intros key x Hg. apply (Hin key [x] x Hg). reflexivity.
Qed.

Lemma selector_rows_per_location_witness :
  exists out,
    select_highest_impact_rows (Some spec_example_df) = Ok out
    /\ one_row_per_location spec_example_df out.
Proof.
  destruct (selector_rows_per_location spec_example_df) as (out & E & _ & _ & _ & H).
  - vm_compute. repeat constructor; simpl; intuition discriminate.
  - exists out. split; [exact E|]. apply H.
    vm_compute. repeat constructor; simpl; intuition discriminate.
Defined.

(** C2 as stated fails: two locations whose rows carry the same
    identifier give one output row, and the second location has none. *)
Lemma shared_variation_loses_a_location :
  select_highest_impact_rows (Some shared_variation_df)
  = Ok [(0, loaded_row "v1" "1:100" "")]
  /\ List.map location shared_variation_df = ["1:100"; "1:200"]%string
  /\ rows_at "1:200" [(0, loaded_row "v1" "1:100" "")] = 0
  /\ ~ one_row_per_location shared_variation_df [(0, loaded_row "v1" "1:100" "")].
Proof.
  split; [reflexivity|]. split; [reflexivity|]. split; [reflexivity|].
  intros H. specialize (H "1:200"%string). simpl in H.
  assert (E : rows_at "1:200" [(0, loaded_row "v1" "1:100" "")] = 1) by (apply H; tauto).
  vm_compute in E. discriminate E.
Qed.

(** ** The order of the groups and the order of the index *)

Lemma leb_refl (a : string) : String.leb a a = true.
Proof.
  unfold String.leb.
  replace (String.compare a a) with Eq; [reflexivity|].
  symmetry. apply String_as_OT.cmp_eq. reflexivity.
Qed.

Lemma leb_lts (a b : string) :
  String.leb a b = true <-> a = b \/ String_as_OT.lt a b.
Proof.
  unfold String.leb. destruct (String.compare a b) eqn:E.
  - apply String_as_OT.cmp_eq in E. tauto.
  - apply String_as_OT.cmp_lt in E. tauto.
  - split; [discriminate|]. intros [->|H].
    + pose proof (proj2 (String_as_OT.cmp_eq b b) eq_refl) as E'.
      unfold String_as_OT.cmp in E'. congruence.
    + apply String_as_OT.cmp_lt in H. unfold String_as_OT.cmp in H. congruence.
Qed.

Lemma leb_trans (a b c : string) :
  String.leb a b = true -> String.leb b c = true -> String.leb a c = true.
Proof.
  rewrite !leb_lts. intros [->|H1] [->|H2]; auto.
  right. eapply String_as_OT.lt_trans; eassumption.
Qed.

Lemma group_keys_sorted (df : DataFrame) :
  StronglySorted (fun a b => String.leb a b = true) (group_keys df).
Proof.
  apply Sorted_StronglySorted.
  - intros a b c. apply leb_trans.
  - apply sort_by_Sorted. apply String.leb_total.
Qed.

Lemma StronglySorted_app {A} (R : A -> A -> Prop) (l1 l2 : list A) :
  StronglySorted R l1 -> StronglySorted R l2 ->
  (forall a b, In a l1 -> In b l2 -> R a b) ->
  StronglySorted R (l1 ++ l2).
Proof.
  induction l1 as [|x l1 IH]; simpl; intros H1 H2 H; [exact H2|].
  inversion H1 as [|? ? Hs Hf]; subst.
  constructor.
  - apply IH; [exact Hs|exact H2|]. intros a b Ha Hb. apply H; [right|]; assumption.
  - apply List.Forall_app. split; [exact Hf|].
    apply List.Forall_forall. intros b Hb. apply H; [left; reflexivity|exact Hb].
Qed.

Lemma appended_sorted (group : DataFrame) :
  StronglySorted (fun a b => String.leb (location a) (location b) = true)
                 (appended group).
Proof.
  unfold appended. destruct group as [|a [|b g]].
  - simpl. destruct (first_without_distance []) ; repeat constructor; apply leb_refl.
  - repeat constructor.
  - destruct (first_without_distance (a :: b :: g)).
    + repeat constructor. apply leb_refl.
    + destruct (last (a :: b :: g)); repeat constructor.
Qed.

(** The group-wise selection runs through the locations in ascending
    order. *)
Lemma selection_sorted (df : DataFrame) :
  StronglySorted (fun a b => String.leb (location a) (location b) = true)
                 (selection df).
Proof.
  unfold selection.
  assert (G : forall grouped,
             StronglySorted (fun a b => String.leb a b = true) (List.map fst grouped) ->
             (forall k g, In (k, g) grouped -> In (k, g) (groupby_Location df)) ->
             StronglySorted (fun a b => String.leb (location a) (location b) = true)
                            (flat_map (fun kg => appended (snd kg)) grouped)).
  { induction grouped as [|[k g] grouped IH]; simpl; intros Hs Hsub; [constructor|].
    inversion Hs as [|? ? Hs' Hf]; subst.
    apply StronglySorted_app.
    - apply appended_sorted.
    - apply IH; [exact Hs'|]. intros k' g' H. apply Hsub. right. exact H.
    - intros a b Ha Hb.
      assert (Hg : In (k, g) (groupby_Location df)) by (apply Hsub; left; reflexivity).
      apply appended_In in Ha; [|eapply group_not_nil; exact Hg].
      apply chosen_In in Ha. apply (group_rows df k g a Hg) in Ha as (_ & ->).
      apply in_flat_map in Hb as ([k' g'] & Hin & Hb). simpl in Hb.
      assert (Hg' : In (k', g') (groupby_Location df)) by (apply Hsub; right; exact Hin).
      apply appended_In in Hb; [|eapply group_not_nil; exact Hg'].
      apply chosen_In in Hb. apply (group_rows df k' g' b Hg') in Hb as (_ & ->).
      rewrite List.Forall_forall in Hf. apply Hf.
      change k' with (fst (k', g')). apply in_map. exact Hin. }
  apply G; [rewrite groupby_keys; apply group_keys_sorted|auto].
Qed.

Lemma first_in_sorted {A} (R : A -> A -> Prop) (f : A -> bool) (l : list A) (x y : A) :
  (forall a, R a a) -> StronglySorted R l ->
  List.find f l = Some x -> In y l -> f y = true -> R x y.
Proof.
  intros Hrefl. induction l as [|a l IH]; simpl; intros Hs Hf Hy Fy; [contradiction|].
  inversion Hs as [|? ? Hs' Hall]; subst.
  destruct (f a) eqn:Fa.
  - injection Hf as ->. destruct Hy as [->|Hy]; [apply Hrefl|].
    rewrite List.Forall_forall in Hall. apply Hall. exact Hy.
  - destruct Hy as [->|Hy]; [congruence|]. apply IH; assumption.
Qed.

Lemma sort_df_by_index_Permutation (df : DataFrame) :
  Permutation (sort_df_by_index df) df.
Proof. apply sort_by_Permutation. Qed.

Lemma sort_df_by_index_sorted (df : DataFrame) :
  StronglySorted (fun a b => label a <= label b) (sort_df_by_index df).
Proof.
  apply Sorted_StronglySorted.
  - intros a b c. apply Nat.le_trans.
  - assert (S : Sorted (fun x y => (label x <=? label y) = true) (sort_df_by_index df)).
    { apply sort_by_Sorted. intros x y.
      destruct (Nat.le_ge_cases (label x) (label y)); [left|right]; apply Nat.leb_le; lia. }
    induction S as [|a l S IH Hd]; constructor; [exact IH|].
    destruct Hd; constructor. apply Nat.leb_le. assumption.
Qed.

Lemma NoDup_map_of_injective {A B} (f : A -> B) (l : list A) :
  List.NoDup l -> (forall a b, In a l -> In b l -> f a = f b -> a = b) ->
  List.NoDup (List.map f l).
Proof.
  induction l as [|x l IH]; simpl; intros Hd Hinj; [constructor|].
  inversion Hd as [|? ? Hn Hd']; subst. constructor.
  - intros H. apply in_map_iff in H as (y & E & Hy).
    assert (y = x) by (apply Hinj; [right; exact Hy|left; reflexivity|exact E]).
    subst y. contradiction.
  - apply IH; [exact Hd'|]. intros a b Ha Hb. apply Hinj; right; assumption.
Qed.

Lemma strictly_sorted_labels (l : DataFrame) :
  StronglySorted (fun a b => label a <= label b) l ->
  List.NoDup (List.map label l) ->
  StronglySorted (fun a b => label a < label b) l.
Proof.
  induction l as [|x l IH]; intros Hs Hd; [constructor|].
  inversion Hs as [|? ? Hs' Hall]; subst.
  simpl in Hd. inversion Hd as [|? ? Hn Hd']; subst.
  constructor; [apply IH; assumption|].
  rewrite List.Forall_forall in *. intros y Hy.
  specialize (Hall y Hy).
  assert (label x <> label y).
  { intros E. apply Hn. rewrite E. apply in_map. exact Hy. }
  lia.
Qed.

(** The rows that leave the Selector have distinct labels when the rows
    of the input have. *)
Lemma output_labels_NoDup (df : DataFrame) :
  List.NoDup (List.map label df) ->
  List.NoDup (List.map label (drop_duplicates (selection df))).
Proof.
  intros Hd. apply NoDup_map_of_injective.
  - eapply NoDup_map_inv. apply drop_duplicates_NoDup.
  - intros a b Ha Hb E. apply out_rows_of_input in Ha, Hb.
    eapply NoDup_map_injective; eassumption.
Qed.

Section IndexOrder.

Variable to_csv : DataFrame -> list string.
Variable access : row_access.

(** C3, amended: the duplicates are dropped inside the Selector, before
    [main] orders the rows by index.  Of the selected rows with one
    identifier the Selector keeps the first of the group-wise
    selection, which is the one whose location sorts first; the index
    labels play no part in it.  [main] then orders the rows that are
    left by their index label and writes them. *)
Theorem duplicates_dropped_before_index_order (args : Args) (df : DataFrame) (w : World) :
  List.NoDup (List.map label df) ->
  rename args = None ->
  exists selected_df,
    select_highest_impact_rows (Some df) = Ok selected_df
    /\ (forall x, In x selected_df <->
                  first_with_variation (variation x) (selection df) = Some x)
    /\ (forall x y, In x selected_df -> In y (selection df) ->
                    variation y = variation x ->
                    String.leb (location x) (location y) = true)
    /\ main_from_selector to_csv access args (Some df) w
       = (write_file (out args) (to_csv (sort_df_by_index selected_df)) w, Ok tt)
    /\ Permutation (sort_df_by_index selected_df) selected_df
    /\ StronglySorted (fun a b => label a < label b) (sort_df_by_index selected_df).
Proof.
  intros Hd Hr. exists (drop_duplicates (selection df)).
  pose proof (out_is_output df Hd) as E.
  split; [exact E|]. split; [|split; [|split; [|split]]].
  - intros x. apply drop_duplicates_In.
  - intros x y Hx Hy Ev. apply drop_duplicates_In in Hx.
    apply (first_in_sorted
             (fun a b => String.leb (location a) (location b) = true)
             (fun z => String.eqb (variation z) (variation x)) (selection df)).
    + intros a. apply leb_refl.
    + apply selection_sorted.
    + exact Hx.
    + exact Hy.
    + apply String.eqb_eq. exact Ev.
  - unfold main_from_selector, bindM, eval. rewrite E, Hr. reflexivity.
  - apply sort_df_by_index_Permutation.
  - apply strictly_sorted_labels; [apply sort_df_by_index_sorted|].
    eapply Permutation_NoDup.
    + apply Permutation_map. symmetry. apply sort_df_by_index_Permutation.
    + apply output_labels_NoDup. exact Hd.
Qed.

End IndexOrder.

Lemma duplicates_dropped_before_index_order_witness :
  exists selected_df,
    select_highest_impact_rows (Some swapped_locations_df) = Ok selected_df
    /\ main_from_selector plain_writer View (mkArgs "in.vep" None "out.tsv")
         (Some swapped_locations_df) (mkWorld ∅ [])
       = (write_file "out.tsv" (plain_writer (sort_df_by_index selected_df))
            (mkWorld ∅ []), Ok tt).
Proof.
  destruct (duplicates_dropped_before_index_order plain_writer View
              (mkArgs "in.vep" None "out.tsv") swapped_locations_df (mkWorld ∅ []))
    as (sel & E & _ & _ & M & _).
  - vm_compute. repeat constructor; simpl; intuition discriminate.
  - reflexivity.
  - exists sel. split; [exact E|exact M].
Defined.

(** C3 as stated fails: the row of the later location comes first in the
    file, so it has the smaller index; both rows are selected, with the
    same identifier; the row that is kept is the one of the location that
    sorts first, with the larger index. *)
Lemma dedup_keeps_first_location_not_smaller_index :
  selection swapped_locations_df
  = [(1, loaded_row "v1" "1:100" ""); (0, loaded_row "v1" "2:100" "")]
  /\ select_highest_impact_rows (Some swapped_locations_df)
     = Ok [(1, loaded_row "v1" "1:100" "")]
  /\ sort_df_by_index [(1, loaded_row "v1" "1:100" "")]
     = [(1, loaded_row "v1" "1:100" "")]
  /\ ~ keeps_smaller_index swapped_locations_df [(1, loaded_row "v1" "1:100" "")].
Proof.
  split; [reflexivity|]. split; [reflexivity|]. split; [reflexivity|].
  intros H.
  destruct (H (0, loaded_row "v1" "2:100" "") (1, loaded_row "v1" "1:100" ""))
    as (_ & Hn).
  - right. left. reflexivity.
  - left. reflexivity.
  - reflexivity.
  - unfold label. simpl. lia.
  - apply Hn. left. reflexivity.
Qed.

(** ** The row selected for a larger group *)

Lemma variation_in_output (l : DataFrame) (x : Series) :
  In x l -> In (variation x) (List.map variation (drop_duplicates l)).
Proof.
  intros Hx.
  destruct (first_with_variation (variation x) l) as [z|] eqn:F.
  - pose proof (first_with_variation_In _ _ _ F) as (_ & Ez).
    rewrite <- Ez. apply in_map. apply drop_duplicates_In. rewrite Ez. exact F.
  - exfalso.
    exact (proj1 (first_with_variation_None _ _) F x Hx eq_refl).
Qed.

Section SelectedForGroup.

Variables (df : DataFrame) (before after : list (string * DataFrame))
          (key : string) (group : DataFrame).
Hypothesis labels_distinct : List.NoDup (List.map label df).
Hypothesis position : groupby_Location df = before ++ (key, group) :: after.
Hypothesis larger : 1 < length group.

Lemma larger_not_one : (length group =? 1) = false.
Proof. apply Nat.eqb_neq. lia. Qed.

(** What the run of the Selector does with the chosen row of the group:
    the loop over the groups puts it in [selected_rows], as the only row
    of that location; its identifier is in the output; the row itself is
    in the output exactly if no earlier group chose a row with its
    identifier, and always when the identifiers of the table are
    distinct. *)
Lemma chosen_row_in_run (x : Series) :
  chosen group = Some x ->
  exists run out,
    for_groups distance_lt (groupby_Location df) (mkLocals [] None None) = Ok run
    /\ In x (selected_rows run)
    /\ (forall y, In y (selected_rows run) -> location y = key -> y = x)
    /\ select_highest_impact_rows (Some df) = Ok out
    /\ out = drop_duplicates (selected_rows run)
    /\ In (variation x) (List.map variation out)
    /\ (forall y, In y out -> location y = key -> y = x)
    /\ (In x out <->
        forall key' group' y, In (key', group') before ->
          chosen group' = Some y -> variation y <> variation x)
    /\ (In x out -> rows_at key out = 1)
    /\ (List.NoDup (List.map variation df) -> In x out).
Proof.
  intros C.
  pose proof (group_in df before after key group position) as Hg.
  destruct (for_groups_spec distance_lt (groupby_Location df) (mkLocals [] None None)
              (groups_well_formed df labels_distinct)) as (run & Hrun & Hsel).
  simpl in Hsel. fold (selection df) in Hsel.
  assert (Hx : In x (selection df)).
  { apply selection_In. exists key, group. split; assumption. }
  pose proof (chosen_in_output df before after key group x position C) as Hiff.
  exists run, (drop_duplicates (selection df)). rewrite Hsel.
  split; [exact Hrun|]. split; [exact Hx|].
  split; [intros y Hy Hl; eapply selection_at; eassumption|].
  split; [apply select_rows_with_spec; exact labels_distinct|].
  split; [reflexivity|].
  split; [apply variation_in_output; exact Hx|].
  split.
  { intros y Hy Hl. apply drop_duplicates_incl in Hy. eapply selection_at; eassumption. }
  split; [exact Hiff|].
  split.
  { intros Hin. apply (rows_at_In df key x Hin).
    eapply location_x; eassumption. }
  intros Hv. apply Hiff. intros k' g' y Hb Hy E.
  destruct (before_in df before after key group position k' g' Hb) as (Hg' & Hk).
  pose proof (chosen_In _ _ Hy) as Iy. pose proof (chosen_In _ _ C) as Ix.
  apply (group_rows df k' g' y Hg') in Iy as (Iy & Ly).
  apply (group_rows df key group x Hg) in Ix as (Ix & Lx).
  assert (y = x) by (eapply NoDup_map_injective; eassumption).
  subst y. congruence.
Qed.

(** C4: in a group of more than one row with a row that has no
    [DISTANCE] key, the scan stops at the first such row [x], whatever
    rows follow it, having appended it; the step of the group appends it
    again after the loop and nothing else.  In the run of the Selector
    [x] is in the rows selected by the loop over the groups, and is the
    only row selected at that location; the output, those rows without
    their duplicates, has the identifier of [x], has no other row at that
    location, and has [x] itself exactly if no earlier group chose a row
    with the identifier of [x] (always, when the identifiers of the table
    are distinct). *)
Theorem first_row_without_distance_is_selected
    (pre post : DataFrame) (x : Series) (st : Locals) :
  group = pre ++ x :: post ->
  (forall y, In y pre -> mem "DISTANCE" (Extra (snd y)) = true) ->
  mem "DISTANCE" (Extra (snd x)) = false ->
  (forall post', scan (pre ++ x :: post') st = append_row x (bind_index_row x st))
  /\ (exists st',
        select_in_group distance_lt group st = Ok st'
        /\ selected_rows st' = selected_rows st ++ [x; x])
  /\ chosen group = Some x
  /\ exists run out,
       for_groups distance_lt (groupby_Location df) (mkLocals [] None None) = Ok run
       /\ In x (selected_rows run)
       /\ (forall y, In y (selected_rows run) -> location y = key -> y = x)
       /\ select_highest_impact_rows (Some df) = Ok out
       /\ out = drop_duplicates (selected_rows run)
       /\ In (variation x) (List.map variation out)
       /\ (forall y, In y out -> location y = key -> y = x)
       /\ (In x out <->
           forall key' group' y, In (key', group') before ->
             chosen group' = Some y -> variation y <> variation x)
       /\ (In x out -> rows_at key out = 1)
       /\ (List.NoDup (List.map variation df) -> In x out).
Proof.
  intros Hg Hpre Hx.
  assert (F : first_without_distance group = Some x).
  { rewrite Hg. apply first_without_distance_app; assumption. }
  assert (C : chosen group = Some x).
  { rewrite chosen_larger by exact larger. rewrite F. reflexivity. }
  split; [|split; [|split]].
  - intros post'. rewrite scan_spec.
    rewrite first_without_distance_app by assumption. reflexivity.
  - pose proof (groups_well_formed df labels_distinct key group
                  (group_in df before after key group position)) as (Hd & _).
    pose proof (loc_label group x Hd (chosen_In _ _ C)) as Hy.
    destruct (select_in_larger_group distance_lt group st x x larger_not_one C Hy)
      as (st' & E & S).
    exists st'. split; [exact E|]. rewrite S, F. reflexivity.
  - exact C.
  - apply chosen_row_in_run. exact C.
Qed.

(** C5: in a group of more than one row where every row has a
    [DISTANCE] key, the scan runs to the end without appending; the step
    of the group appends the last row [x] of the group, whatever the
    distances are.  In the run of the Selector [x] is in the rows
    selected by the loop over the groups, and is the only row selected
    at that location; the output, those rows without their duplicates,
    has the identifier of [x], has no other row at that location, and has
    [x] itself exactly if no earlier group chose a row with the
    identifier of [x] (always, when the identifiers of the table are
    distinct). *)
Theorem last_row_is_selected_when_all_have_distance
    (front : DataFrame) (x : Series) (st : Locals) :
  group = front ++ [x] ->
  (forall y, In y group -> mem "DISTANCE" (Extra (snd y)) = true) ->
  scan group st = bind_index_row x st
  /\ (exists st',
        select_in_group distance_lt group st = Ok st'
        /\ selected_rows st' = selected_rows st ++ [x])
  /\ chosen group = Some x
  /\ exists run out,
       for_groups distance_lt (groupby_Location df) (mkLocals [] None None) = Ok run
       /\ In x (selected_rows run)
       /\ (forall y, In y (selected_rows run) -> location y = key -> y = x)
       /\ select_highest_impact_rows (Some df) = Ok out
       /\ out = drop_duplicates (selected_rows run)
       /\ In (variation x) (List.map variation out)
       /\ (forall y, In y out -> location y = key -> y = x)
       /\ (In x out <->
           forall key' group' y, In (key', group') before ->
             chosen group' = Some y -> variation y <> variation x)
       /\ (In x out -> rows_at key out = 1)
       /\ (List.NoDup (List.map variation df) -> In x out).
Proof.
  intros Hg Hall.
  assert (F : first_without_distance group = None).
  { apply first_without_distance_none. exact Hall. }
  assert (L : last group = Some x).
  { rewrite Hg. apply last_snoc. }
  assert (C : chosen group = Some x).
  { rewrite chosen_larger by exact larger. rewrite F. exact L. }
  split; [|split; [|split]].
  - rewrite scan_spec, F, L. reflexivity.
  - pose proof (groups_well_formed df labels_distinct key group
                  (group_in df before after key group position)) as (Hd & _).
    pose proof (loc_label group x Hd (chosen_In _ _ C)) as Hy.
    destruct (select_in_larger_group distance_lt group st x x larger_not_one C Hy)
      as (st' & E & S).
    exists st'. split; [exact E|]. rewrite S, F. reflexivity.
  - exact C.
  - apply chosen_row_in_run. exact C.
Qed.

End SelectedForGroup.

Lemma first_row_without_distance_witness :
  exists out,
    select_highest_impact_rows (Some spec_example_df) = Ok out
    /\ In (1, loaded_row "v2" "1:100" "") out
    /\ rows_at "1:100" out = 1.
Proof.
  destruct (first_row_without_distance_is_selected
              spec_example_df [] [] "1:100" spec_example_df)
    with (pre := [(0, loaded_row "v1" "1:100" "DISTANCE=5")])
         (post := @nil Series)
         (x := (1, loaded_row "v2" "1:100" ""))
         (st := mkLocals [] None None)
    as (_ & _ & _ & run & out & _ & _ & _ & E & _ & _ & _ & I & R & _).
  - vm_compute. repeat constructor; simpl; intuition discriminate.
  - reflexivity.
  - simpl. lia.
  - reflexivity.
  - intros y [<-|[]]. reflexivity.
  - reflexivity.
  - assert (Hin : In (1, loaded_row "v2" "1:100" "") out).
    { apply I. intros key' group' y []. }
    exists out. split; [exact E|]. split; [exact Hin|exact (R Hin)].
Defined.

Lemma last_row_witness :
  exists out,
    select_highest_impact_rows (Some all_distances_df) = Ok out
    /\ In (2, loaded_row "v3" "1:100" "DISTANCE=9") out
    /\ rows_at "1:100" out = 1.
Proof.
  destruct (last_row_is_selected_when_all_have_distance
              all_distances_df [] [] "1:100" all_distances_df)
    with (front := [(0, loaded_row "v1" "1:100" "DISTANCE=1");
                    (1, loaded_row "v2" "1:100" "DISTANCE=7")])
         (x := (2, loaded_row "v3" "1:100" "DISTANCE=9"))
         (st := mkLocals [] None None)
    as (_ & _ & _ & run & out & _ & _ & _ & E & _ & _ & _ & I & R & _).
  - vm_compute. repeat constructor; simpl; intuition (try discriminate; try lia).
  - reflexivity.
  - simpl. lia.
  - reflexivity.
  - intros y [<-|[<-|[<-|[]]]]; reflexivity.
  - assert (Hin : In (2, loaded_row "v3" "1:100" "DISTANCE=9") out).
    { apply I. intros key' group' y []. }
    exists out. split; [exact E|]. split; [exact Hin|exact (R Hin)].
Defined.

(** * Further properties of the code *)

(** ** Splitting text *)

Lemma split_length (sep : ascii) (s : string) :
  length (split sep s) = S (count_char sep s).
Proof.
  induction s as [|c s IH]; simpl; [reflexivity|].
  destruct (Ascii.eqb c sep); simpl; [rewrite IH; reflexivity|].
  destruct (split sep s) as [|p ps] eqn:E; simpl in *; [discriminate IH|exact IH].
Qed.

Lemma contains_count (c : ascii) (s : string) :
  contains c s = true <-> 1 <= count_char c s.
Proof.
  induction s as [|c' s IH]; simpl.
  - split; [discriminate|lia].
  - destruct (Ascii.eqb c' c); simpl; [split; [lia|reflexivity]|exact IH].
Qed.

Lemma split_pieces_free (sep : ascii) (s piece : string) :
  In piece (split sep s) -> contains sep piece = false.
Proof.
  revert piece. induction s as [|c s IH]; simpl; intros piece H.
  - destruct H as [<-|[]]. reflexivity.
  - destruct (Ascii.eqb c sep) eqn:E.
    + destruct H as [<-|H]; [reflexivity|apply IH; exact H].
    + destruct (split sep s) as [|p ps] eqn:S.
      * destruct H as [<-|[]]. simpl. rewrite E. reflexivity.
      * destruct H as [<-|H].
        -- simpl. rewrite E. simpl. apply IH. left. reflexivity.
        -- apply IH. right. exact H.
Qed.

Lemma join_split (sep : ascii) (s : string) : join sep (split sep s) = s.
Proof.
  induction s as [|c s IH]; simpl; [reflexivity|].
  destruct (Ascii.eqb_spec c sep) as [->|Hne].
  - pose proof (split_not_nil sep s) as Hn.
    destruct (split sep s) as [|p ps]; [contradiction|].
    change (join sep (EmptyString :: p :: ps))
      with (String sep (join sep (p :: ps))).
    rewrite IH. reflexivity.
  - destruct (split sep s) as [|p ps] eqn:S.
    + exfalso. eapply split_not_nil. exact S.
    + destruct ps as [|q ps].
      * simpl in *. rewrite IH. reflexivity.
      * change (join sep (String c p :: q :: ps))
          with (String c (p +:+ String sep (join sep (q :: ps)))).
        f_equal. exact IH.
Qed.

(** X1: [s.split(sep)] loses nothing: joining the pieces with the
    separator gives the text back; there is one piece more than there are
    separators in the text, and no piece contains the separator. *)
Theorem split_join_round_trip (sep : ascii) (s : string) :
  join sep (split sep s) = s
  /\ length (split sep s) = S (count_char sep s)
  /\ forall piece, In piece (split sep s) -> contains sep piece = false.
Proof.
  split; [apply join_split|]. split; [apply split_length|].
  intros piece. apply split_pieces_free.
Qed.

(** ** The [Extra] cell *)

Lemma dict_of_outcome (items : list (list string)) (d0 : dict) :
  match dict_of d0 items with
  | Ok _ => forallb (fun item => length item =? 2) items = true
  | Raise e => e = ValueError /\ forallb (fun item => length item =? 2) items = false
  end.
Proof.
  revert d0. induction items as [|item items IH]; intros d0; simpl; [reflexivity|].
  destruct item as [|k [|v [|z item]]]; simpl; try (split; reflexivity).
  apply IH.
Qed.

Lemma kept_segment_pieces (item : string) :
  contains "=" item = true ->
  (length (split "=" item) =? 2) = (count_char "=" item <=? 1).
Proof.
  intros H. apply contains_count in H. rewrite split_length.
  destruct (Nat.leb_spec (count_char "=" item) 1) as [L|L].
  - apply Nat.eqb_eq. lia.
  - apply Nat.eqb_neq. lia.
Qed.

Lemma segments_forallb (segments : list string) :
  forallb (fun item => length item =? 2)
          (List.map (split "=") (List.filter (contains "=") segments))
  = forallb (fun item => count_char "=" item <=? 1) segments.
Proof.
  induction segments as [|item segments IH]; simpl; [reflexivity|].
  destruct (contains "=" item) eqn:C; simpl.
  - rewrite IH, (kept_segment_pieces item C). reflexivity.
  - rewrite IH.
    assert (count_char "=" item = 0).
    { destruct (count_char "=" item) eqn:E; [reflexivity|].
      assert (contains "=" item = true) by (apply contains_count; lia). congruence. }
    replace (count_char "=" item <=? 1) with true; [reflexivity|].
    symmetry. apply Nat.leb_le. lia.
Qed.

(** X2: the parsing of an [Extra] text returns a dict exactly if no
    segment between [';'] has more than one ['=']; otherwise it raises,
    and what it raises is a [ValueError]. *)
Theorem parse_extra_outcome (x : string) :
  match parse_extra x with
  | Ok _ => forallb (fun item => count_char "=" item <=? 1) (split ";" x) = true
  | Raise e =>
      e = ValueError
      /\ forallb (fun item => count_char "=" item <=? 1) (split ";" x) = false
  end.
Proof.
  unfold parse_extra.
  pose proof (dict_of_outcome
                (List.map (split "=") (List.filter (contains "=") (split ";" x))) ∅) as H.
  rewrite segments_forallb in H. exact H.
Qed.

Lemma last_cons_filter {A} (p : A -> bool) (a : A) (l : list A) :
  last (List.filter p (a :: l))
  = match last (List.filter p l) with
    | Some y => Some y
    | None => if p a then Some a else None
    end.
Proof.
  simpl. destruct (p a); [|destruct (last (List.filter p l)); reflexivity].
  destruct (List.filter p l) as [|b l'] eqn:E; [reflexivity|].
  change (last (a :: b :: l')) with (last (b :: l')).
  destruct (last_not_nil (b :: l')) as (y & ->); [discriminate|reflexivity].
Qed.

Lemma dict_of_lookup (k : string) (items : list (list string)) (d0 d : dict) :
  dict_of d0 items = Ok d ->
  d !! k
  = match last (List.filter (fun item => String.eqb (hd EmptyString item) k) items) with
    | Some item => Some (nth 1 item EmptyString)
    | None => d0 !! k
    end.
Proof.
  revert d0. induction items as [|item items IH]; intros d0 H.
  - simpl in H. injection H as ->. reflexivity.
  - rewrite last_cons_filter.
    destruct item as [|k1 [|v1 [|z item]]]; simpl in H; try discriminate H.
    specialize (IH _ H). rewrite IH.
    destruct (last (List.filter _ items)); [reflexivity|].
    simpl. destruct (String.eqb_spec k1 k) as [->|Hne].
    + rewrite lookup_insert_eq. reflexivity.
    + rewrite lookup_insert_ne by exact Hne. reflexivity.
Qed.

(** X3: in the dict parsed from an [Extra] text a key has the value of
    the last kept segment that starts with that key and ['=']; a key
    without such a segment is not in the dict. *)
Theorem parse_extra_last_segment_wins (x : string) (d : dict) (k : string) :
  parse_extra x = Ok d ->
  d !! k
  = match last (List.filter (fun item => String.eqb (segment_key item) k)
                            (kept_segments x)) with
    | Some item => Some (segment_value item)
    | None => None
    end.
Proof.
  intros H. unfold parse_extra in H.
  rewrite (dict_of_lookup k _ _ _ H). fold (kept_segments x).
  generalize (kept_segments x) as segments. intros segments.
  assert (F : forall l,
             List.filter (fun item => String.eqb (hd EmptyString item) k)
                         (List.map (split "=") l)
             = List.map (split "=")
                 (List.filter (fun item => String.eqb (segment_key item) k) l)).
  { induction l as [|a l IHl]; simpl; [reflexivity|].
    unfold segment_key at 1.
    destruct (split "=" a) as [|k1 rest] eqn:E; simpl.
    - exfalso. eapply split_not_nil. exact E.
    - destruct (String.eqb k1 k); simpl; rewrite IHl, ?E; reflexivity. }
  rewrite F.
  change (List.map (split "=")
            (List.filter (fun item => String.eqb (segment_key item) k) segments))
    with (split "=" <$>
            List.filter (fun item => String.eqb (segment_key item) k) segments).
  rewrite fmap_last.
  destruct (last (List.filter _ segments)) as [item|]; simpl; [|apply lookup_empty].
  unfold segment_value. destruct (split "=" item) as [|a [|b l]]; reflexivity.
Qed.

Lemma parse_extra_last_segment_witness :
  (<["DISTANCE" := "12"%string]> (<["IMPACT" := "LOW"%string]> (∅ : dict)))
    !! "DISTANCE"%string
  = Some "12"%string.
Proof.
  rewrite (parse_extra_last_segment_wins "DISTANCE=5;IMPACT=LOW;flag;DISTANCE=12"
             (<["DISTANCE" := "12"%string]> (<["IMPACT" := "LOW"%string]> ∅))
             "DISTANCE").
  - reflexivity.
  - reflexivity.
Defined.

(** ** The Loader on a file that exists *)

Lemma combine_seq_fst {A} (l : list A) (start : nat) :
  List.map fst (combine (seq start (length l)) l) = seq start (length l).
Proof.
  revert start. induction l as [|a l IH]; intros start; simpl; [reflexivity|].
  rewrite IH. reflexivity.
Qed.

Lemma combine_seq_snd {A} (l : list A) (start : nat) :
  List.map snd (combine (seq start (length l)) l) = l.
Proof.
  revert start. induction l as [|a l IH]; intros start; simpl; [reflexivity|].
  rewrite IH. reflexivity.
Qed.

Lemma range_index_labels (rows : list (Row dict)) :
  List.map label (range_index rows) = seq 0 (length rows).
Proof. apply combine_seq_fst. Qed.

Lemma range_index_length (rows : list (Row dict)) :
  length (range_index rows) = length rows.
Proof.
  unfold range_index. rewrite length_combine, length_seq. apply Nat.min_id.
Qed.

Section LoaderPaths.

Variable read_csv : list string -> result (list (list string)).

(** The Loader, case by case. *)
Lemma loader_cases (path : string) (w : World) :
  read_vep_annotation_file read_csv path w
  = match files w !! path with
    | None => (print ("File not found: " +:+ path) w, Ok None)
    | Some lines =>
        let w1 := write_file (path +:+ ".tmp") (strip_comments lines) w in
        match loaded_rows read_csv (strip_comments lines) with
        | Ok rows => (remove_file (path +:+ ".tmp") w1, Ok (Some (range_index rows)))
        | Raise FileNotFoundError => (print ("File not found: " +:+ path) w1, Ok None)
        | Raise e => (w1, Raise e)
        end
    end.
Proof.
  unfold read_vep_annotation_file, try_except, bindM, inspect, exec, eval, ret,
    read_lines, os_remove, loaded_rows.
  destruct (files w !! path) as [lines|] eqn:F; [|reflexivity].
  fold (strip_comments lines). cbv zeta.
  assert (T : files (write_file (path +:+ ".tmp") (strip_comments lines) w)
                !! (path +:+ ".tmp") = Some (strip_comments lines)).
  { unfold write_file. simpl. apply lookup_insert_eq. }
  rewrite !T.
  destruct (read_csv (strip_comments lines)) as [cells|e]; simpl;
    [|destruct e; reflexivity].
  destruct (traverse assign_columns cells) as [named|e]; simpl;
    [|destruct e; reflexivity].
  destruct (traverse apply_parse_extra named) as [rows|e]; simpl;
    [|destruct e; reflexivity].
  reflexivity.
Qed.

(** X4: when the file exists and its lines without the comment lines are
    read, labelled and parsed without an exception, the Loader returns the
    frame of those rows with the labels 0, 1, 2, ...; it prints nothing,
    and the file system is as before except that there is no [.tmp] file
    beside the input. *)
Theorem loader_success_removes_tmp (path : string) (w : World)
    (lines : list string) (rows : list (Row dict)) :
  files w !! path = Some lines ->
  loaded_rows read_csv (strip_comments lines) = Ok rows ->
  read_vep_annotation_file read_csv path w
  = (mkWorld (delete (path +:+ ".tmp") (files w)) (stdout w),
     Ok (Some (range_index rows)))
  /\ List.map label (range_index rows) = seq 0 (length rows)
  /\ List.map snd (range_index rows) = rows.
Proof.
  intros F L. rewrite loader_cases, F. cbv zeta. rewrite L.
  split; [|split].
  - unfold remove_file, write_file. simpl. rewrite delete_insert_eq. reflexivity.
  - apply range_index_labels.
  - apply combine_seq_snd.
Qed.

(** X5: when the file exists and the reading, the labelling or the
    parsing raises an exception other than [FileNotFoundError], the Loader
    raises it too; it prints nothing, and the [.tmp] file stays behind
    with the lines of the input that are not comments. *)
Theorem loader_failure_leaves_tmp (path : string) (w : World)
    (lines : list string) (e : exn) :
  files w !! path = Some lines ->
  loaded_rows read_csv (strip_comments lines) = Raise e ->
  e <> FileNotFoundError ->
  read_vep_annotation_file read_csv path w
  = (mkWorld (<[path +:+ ".tmp" := strip_comments lines]> (files w)) (stdout w),
     Raise e).
Proof.
  intros F L Hne. rewrite loader_cases, F. cbv zeta. rewrite L.
  destruct e; try reflexivity. contradiction.
Qed.

(** X6: whatever the file system holds, a frame that the Loader returns
    has the labels 0, 1, 2, ... in this order, so its labels are
    distinct. *)
Theorem loader_labels_are_positions (path : string) (w w' : World) (df : DataFrame) :
  read_vep_annotation_file read_csv path w = (w', Ok (Some df)) ->
  List.map label df = seq 0 (length df)
  /\ List.NoDup (List.map label df).
Proof.
  rewrite loader_cases. intros H.
  assert (E : exists rows, df = range_index rows).
  { destruct (files w !! path) as [lines|]; [|discriminate H].
    cbv zeta in H.
    destruct (loaded_rows read_csv (strip_comments lines)) as [rows|e].
    - injection H as _ <-. exists rows. reflexivity.
    - destruct e; discriminate H. }
  destruct E as (rows & ->).
  assert (L : List.map label (range_index rows) = seq 0 (length (range_index rows))).
  { rewrite range_index_labels, range_index_length. reflexivity. }
  split; [exact L|]. rewrite L. apply seq_NoDup.
Qed.

End LoaderPaths.

Lemma loader_success_witness :
  exists rows,
    read_vep_annotation_file plain_reader "in.vep" sample_vep_world
    = (mkWorld (delete "in.vep.tmp"%string (files sample_vep_world)) [],
       Ok (Some (range_index rows)))
    /\ length rows = 2.
Proof.
  eexists. split.
  - apply (loader_success_removes_tmp plain_reader "in.vep" sample_vep_world
             sample_vep_lines).
    + reflexivity.
    + vm_compute. reflexivity.
  - reflexivity.
Defined.

Lemma loader_failure_witness :
  read_vep_annotation_file plain_reader "in.vep" bad_extra_world
  = (mkWorld (<["in.vep.tmp"%string :=
                 [join "009" ["1_100_A/G"; "1:100"; "G"; "geneX"; "tx1"; "Transcript";
                              "synonymous_variant"; "-"; "-"; "-"; "-"; "-"; "-";
                              "IMPACT=LOW;HGVSp=p.Leu5="]%string]]>
                (files bad_extra_world)) [],
     Raise ValueError).
Proof.
  apply (loader_failure_leaves_tmp plain_reader "in.vep" bad_extra_world
           [join "009" ["1_100_A/G"; "1:100"; "G"; "geneX"; "tx1"; "Transcript";
                        "synonymous_variant"; "-"; "-"; "-"; "-"; "-"; "-";
                        "IMPACT=LOW;HGVSp=p.Leu5="]%string] ValueError).
  - reflexivity.
  - vm_compute. reflexivity.
  - discriminate.
Defined.

Lemma loader_labels_witness :
  exists w' df,
    read_vep_annotation_file plain_reader "in.vep" sample_vep_world = (w', Ok (Some df))
    /\ List.map label df = [0; 1].
Proof.
  eexists. eexists.
  assert (E : read_vep_annotation_file plain_reader "in.vep" sample_vep_world
              = (?[w'], Ok (Some ?[df]))) by (vm_compute; reflexivity).
  split; [exact E|].
  destruct (loader_labels_are_positions plain_reader "in.vep" sample_vep_world _ _ E)
    as (H & _).
  rewrite H. reflexivity.
Defined.

(** ** The groups *)

Lemma ltb_of_leb (a b : string) :
  String.leb a b = true -> a <> b -> String.ltb a b = true.
Proof.
  unfold String.leb, String.ltb. intros H Hne.
  destruct (String.compare a b) eqn:E; [|reflexivity|discriminate H].
  exfalso. apply Hne. apply String_as_OT.cmp_eq. exact E.
Qed.

Lemma StronglySorted_strengthen {A} (R R' : A -> A -> Prop) (l : list A) :
  StronglySorted R l -> List.NoDup l ->
  (forall a b, In a l -> In b l -> a <> b -> R a b -> R' a b) ->
  StronglySorted R' l.
Proof.
  induction l as [|x l IH]; intros Hs Hd H; [constructor|].
  inversion Hs as [|? ? Hs' Hall]; subst.
  inversion Hd as [|? ? Hn Hd']; subst.
  constructor.
  - apply IH; [exact Hs'|exact Hd'|].
    intros a b Ha Hb. apply H; right; assumption.
  - rewrite List.Forall_forall in *. intros y Hy.
    apply H; [left; reflexivity|right; exact Hy| |apply Hall; exact Hy].
    intros ->. contradiction.
Qed.

Lemma group_keys_strictly_sorted (df : DataFrame) :
  StronglySorted (fun a b => String.ltb a b = true) (group_keys df).
Proof.
  apply (StronglySorted_strengthen (fun a b => String.leb a b = true)).
  - apply group_keys_sorted.
  - apply group_keys_NoDup.
  - intros a b _ _ Hne H. apply ltb_of_leb; assumption.
Qed.

Lemma flat_map_filter_nil (keys : list string) :
  flat_map (fun k => List.filter (fun x : Series => String.eqb (location x) k) []) keys
  = [].
Proof. induction keys as [|k keys IH]; simpl; [reflexivity|exact IH]. Qed.

Lemma flat_map_filter_other (x : Series) (l : DataFrame) (keys : list string) :
  ~ In (location x) keys ->
  flat_map (fun k => List.filter (fun y => String.eqb (location y) k) (x :: l)) keys
  = flat_map (fun k => List.filter (fun y => String.eqb (location y) k) l) keys.
Proof.
  induction keys as [|k keys IH]; intros Hk; [reflexivity|].
  cbn [flat_map]. rewrite IH by (intros H; apply Hk; right; exact H).
  f_equal. simpl.
  destruct (String.eqb_spec (location x) k) as [E|_]; [|reflexivity].
  exfalso. apply Hk. left. symmetry. exact E.
Qed.

Lemma flat_map_filter_cons (x : Series) (l : DataFrame) (keys : list string) :
  List.NoDup keys -> In (location x) keys ->
  Permutation
    (flat_map (fun k => List.filter (fun y => String.eqb (location y) k) (x :: l)) keys)
    (x :: flat_map (fun k => List.filter (fun y => String.eqb (location y) k) l) keys).
Proof.
  induction keys as [|k keys IH]; intros Hd Hin; [contradiction|].
  inversion Hd as [|? ? Hn Hd']; subst.
  cbn [flat_map].
  destruct (String.eqb_spec (location x) k) as [E|Hne].
  - rewrite flat_map_filter_other by (rewrite E; exact Hn).
    simpl. rewrite <- E at 1. rewrite String.eqb_refl. reflexivity.
  - destruct Hin as [E|Hin]; [exfalso; apply Hne; symmetry; exact E|].
    rewrite (IH Hd' Hin).
    replace (List.filter (fun y => String.eqb (location y) k) (x :: l))
      with (List.filter (fun y => String.eqb (location y) k) l).
    + apply Permutation_sym, Permutation_middle.
    + simpl. apply String.eqb_neq in Hne. rewrite Hne. reflexivity.
Qed.

Lemma groups_Permutation (l : DataFrame) (keys : list string) :
  List.NoDup keys -> (forall x, In x l -> In (location x) keys) ->
  Permutation
    (flat_map (fun k => List.filter (fun y => String.eqb (location y) k) l) keys) l.
Proof.
  intros Hd. induction l as [|x l IH]; intros Hin.
  - rewrite flat_map_filter_nil. reflexivity.
  - rewrite flat_map_filter_cons; [|exact Hd|apply Hin; left; reflexivity].
    constructor. apply IH. intros y Hy. apply Hin. right. exact Hy.
Qed.

(** X7: [groupby('Location')] partitions the table: the rows of the
    groups together are the rows of the table; a group is never empty and
    holds the rows of its location, in the order of the table; the groups
    come in strictly ascending order of their location. *)
Theorem groupby_partitions_by_location (df : DataFrame) :
  Permutation (flat_map snd (groupby_Location df)) df
  /\ StronglySorted (fun a b => String.ltb a b = true)
                    (List.map fst (groupby_Location df))
  /\ forall key group, In (key, group) (groupby_Location df) ->
       group <> []
       /\ group = List.filter (fun x => String.eqb (location x) key) df
       /\ forall x, In x group <-> In x df /\ location x = key.
Proof.
  split; [|split].
  - unfold groupby_Location. rewrite flat_map_concat_map, List.map_map. simpl.
    rewrite <- flat_map_concat_map.
    apply groups_Permutation; [apply group_keys_NoDup|].
    intros x Hx. apply group_keys_In. apply in_map. exact Hx.
  - rewrite groupby_keys. apply group_keys_strictly_sorted.
  - intros key group H. split; [eapply group_not_nil; exact H|]. split.
    + apply groupby_In in H. tauto.
    + intros x. apply group_rows. exact H.
Qed.

(** ** The order of the Selector's output, and selecting twice *)

Lemma drop_duplicates_seen_sorted (R : Series -> Series -> Prop)
    (seen : list string) (l : DataFrame) :
  StronglySorted R l -> StronglySorted R (drop_duplicates_seen seen l).
Proof.
  revert seen. induction l as [|x l IH]; intros seen Hs; simpl; [constructor|].
  inversion Hs as [|? ? Hs' Hall]; subst.
  destruct (existsb (String.eqb (variation x)) seen); [apply IH; exact Hs'|].
  constructor; [apply IH; exact Hs'|].
  rewrite List.Forall_forall in *. intros y Hy. apply Hall.
  apply drop_duplicates_seen_In in Hy as (_ & F).
  apply first_with_variation_In in F. tauto.
Qed.

Lemma same_location_same_row (df : DataFrame) (a b : Series) :
  In a (selection df) -> In b (selection df) -> location a = location b -> a = b.
Proof.
  intros Ha Hb E.
  apply selection_In in Ha as Ha'. destruct Ha' as (k & g & Hg & Hc).
  pose proof (chosen_In _ _ Hc) as Hin.
  apply (group_rows df k g a Hg) in Hin as (_ & Hl).
  symmetry. apply (selection_at df k g a b Hg Hc Hb). congruence.
Qed.

Lemma output_sorted_by_location (df : DataFrame) :
  StronglySorted (fun a b => String.ltb (location a) (location b) = true)
                 (drop_duplicates (selection df)).
Proof.
  apply (StronglySorted_strengthen
           (fun a b => String.leb (location a) (location b) = true)).
  - apply drop_duplicates_seen_sorted. apply selection_sorted.
  - eapply NoDup_map_inv. apply drop_duplicates_NoDup.
  - intros a b Ha Hb Hne H. apply ltb_of_leb; [exact H|]. intros E. apply Hne.
    apply (same_location_same_row df); [apply drop_duplicates_incl; exact Ha
                                       |apply drop_duplicates_incl; exact Hb|exact E].
Qed.

(** X8: for a table with distinct row labels the rows of the Selector's
    output are in strictly ascending order of their location, not in the
    order of the table; so no two of them are at one location, and they
    are no more than the distinct locations of the table. *)
Theorem selector_output_ordered_by_location (df : DataFrame) :
  List.NoDup (List.map label df) ->
  exists out,
    select_highest_impact_rows (Some df) = Ok out
    /\ StronglySorted (fun a b => String.ltb (location a) (location b) = true) out
    /\ List.NoDup (List.map location out)
    /\ length out <= length (group_keys df).
Proof.
  intros Hd. exists (drop_duplicates (selection df)).
  split; [apply select_rows_with_spec; exact Hd|].
  pose proof (output_sorted_by_location df) as S.
  assert (N : List.NoDup (List.map location (drop_duplicates (selection df)))).
  { apply NoDup_map_of_injective.
    - eapply NoDup_map_inv. apply drop_duplicates_NoDup.
    - intros a b Ha Hb. apply (same_location_same_row df);
        apply drop_duplicates_incl; assumption. }
  split; [exact S|]. split; [exact N|].
  rewrite <- (length_map location).
  apply NoDup_incl_length; [exact N|].
  intros k Hk. apply in_map_iff in Hk as (x & <- & Hx).
  apply group_keys_In. apply in_map. apply out_rows_of_input. exact Hx.
Qed.

Lemma selector_output_ordered_witness :
  exists out,
    select_highest_impact_rows (Some swapped_locations_df) = Ok out
    /\ List.map location out = ["1:100"%string].
Proof.
  destruct (selector_output_ordered_by_location swapped_locations_df)
    as (out & E & _).
  - vm_compute. repeat constructor; simpl; intuition discriminate.
  - exists out. split; [exact E|].
    assert (E' : select_highest_impact_rows (Some swapped_locations_df)
                 = Ok [(1, loaded_row "v1" "1:100" "")]) by reflexivity.
    rewrite E' in E. injection E as <-. reflexivity.
Defined.

Lemma sort_by_sorted_id {A} (le : A -> A -> bool) (l : list A) :
  StronglySorted (fun a b => le a b = true) l -> sort_by le l = l.
Proof.
  induction l as [|a l IH]; intros Hs; [reflexivity|].
  inversion Hs as [|? ? Hs' Hall]; subst.
  simpl. rewrite (IH Hs').
  destruct l as [|b l]; [reflexivity|]. simpl.
  rewrite List.Forall_forall in Hall. rewrite (Hall b (or_introl eq_refl)). reflexivity.
Qed.

Lemma StronglySorted_map {A B} (R : B -> B -> Prop) (f : A -> B) (l : list A) :
  StronglySorted (fun a b => R (f a) (f b)) l -> StronglySorted R (List.map f l).
Proof.
  induction 1 as [|a l Hs IH Hall]; simpl; constructor; [exact IH|].
  rewrite List.Forall_forall in *. intros y Hy.
  apply in_map_iff in Hy as (x & <- & Hx). apply Hall. exact Hx.
Qed.

Lemma StronglySorted_weaken {A} (R R' : A -> A -> Prop) (l : list A) :
  (forall a b, R a b -> R' a b) -> StronglySorted R l -> StronglySorted R' l.
Proof.
  intros H. induction 1 as [|a l Hs IH Hall]; constructor; [exact IH|].
  rewrite List.Forall_forall in *. intros y Hy. apply H, Hall. exact Hy.
Qed.

Lemma leb_of_ltb (a b : string) : String.ltb a b = true -> String.leb a b = true.
Proof.
  unfold String.ltb, String.leb. destruct (String.compare a b); congruence.
Qed.

Lemma filter_no_location (l : DataFrame) (key : string) :
  ~ In key (List.map location l) ->
  List.filter (fun y => String.eqb (location y) key) l = [].
Proof.
  induction l as [|a l IH]; simpl; intros Hn; [reflexivity|].
  destruct (String.eqb_spec (location a) key) as [E|_].
  - exfalso. apply Hn. left. exact E.
  - apply IH. intros H. apply Hn. right. exact H.
Qed.

Lemma filter_own_location (l : DataFrame) (x : Series) :
  List.NoDup (List.map location l) -> In x l ->
  List.filter (fun y => String.eqb (location y) (location x)) l = [x].
Proof.
  induction l as [|a l IH]; simpl; intros Hd Hin; [contradiction|].
  inversion Hd as [|? ? Hn Hd']; subst.
  destruct Hin as [->|Hin].
  - rewrite String.eqb_refl. f_equal. apply filter_no_location. exact Hn.
  - destruct (String.eqb_spec (location a) (location x)) as [E|_].
    + exfalso. apply Hn. rewrite E. apply in_map. exact Hin.
    + apply IH; assumption.
Qed.

Lemma drop_duplicates_seen_id (seen : list string) (l : DataFrame) :
  List.NoDup (List.map variation l) ->
  (forall x, In x l -> ~ In (variation x) seen) ->
  drop_duplicates_seen seen l = l.
Proof.
  revert seen. induction l as [|a l IH]; intros seen Hd Hs; simpl; [reflexivity|].
  inversion Hd as [|? ? Hn Hd']; subst.
  destruct (existsb (String.eqb (variation a)) seen) eqn:E.
  - exfalso. apply seen_In in E. exact (Hs a (or_introl eq_refl) E).
  - f_equal. apply IH; [exact Hd'|].
    intros x Hx [H|H].
    + apply Hn. rewrite H. apply in_map. exact Hx.
    + exact (Hs x (or_intror Hx) H).
Qed.

Lemma selection_of_one_per_location (l : DataFrame) :
  StronglySorted (fun a b => String.ltb (location a) (location b) = true) l ->
  List.NoDup (List.map location l) ->
  selection l = l.
Proof.
  intros Hs Hd. unfold selection, groupby_Location, group_keys.
  rewrite nodup_fixed_point by exact Hd.
  rewrite sort_by_sorted_id.
  2:{ apply StronglySorted_map.
      eapply StronglySorted_weaken; [|exact Hs].
      intros a b. apply leb_of_ltb. }
  rewrite flat_map_concat_map, !List.map_map. simpl.
  rewrite <- flat_map_concat_map.
  assert (G : forall l', (forall x, In x l' -> In x l) ->
             flat_map (fun x => appended
                         (List.filter (fun y => String.eqb (location y) (location x)) l))
                      l' = l').
  { induction l' as [|x l' IH]; intros Hsub; [reflexivity|].
    cbn [flat_map]. rewrite IH by (intros y Hy; apply Hsub; right; exact Hy).
    rewrite (filter_own_location l x Hd (Hsub x (or_introl eq_refl))).
    reflexivity. }
  apply G. auto.
Qed.

(** X9: selecting twice changes nothing: for a table with distinct row
    labels the Selector, applied to its own output, returns that output. *)
Theorem selector_idempotent (df : DataFrame) :
  List.NoDup (List.map label df) ->
  exists out,
    select_highest_impact_rows (Some df) = Ok out
    /\ select_highest_impact_rows (Some out) = Ok out.
Proof.
  intros Hd. exists (drop_duplicates (selection df)).
  split; [apply select_rows_with_spec; exact Hd|].
  unfold select_highest_impact_rows.
  rewrite select_rows_with_spec by (apply output_labels_NoDup; exact Hd).
  f_equal.
  rewrite selection_of_one_per_location.
  - apply drop_duplicates_seen_id; [apply drop_duplicates_NoDup|].
    intros x _ [].
  - apply output_sorted_by_location.
  - apply NoDup_map_of_injective.
    + eapply NoDup_map_inv. apply drop_duplicates_NoDup.
    + intros a b Ha Hb. apply (same_location_same_row df);
        apply drop_duplicates_incl; assumption.
Qed.

Lemma selector_idempotent_witness :
  select_highest_impact_rows (Some [(1, loaded_row "v2" "1:100" "")])
  = Ok [(1, loaded_row "v2" "1:100" "")].
Proof.
  destruct (selector_idempotent spec_example_df) as (out & E & I).
  - vm_compute. repeat constructor; simpl; intuition discriminate.
  - assert (E' : select_highest_impact_rows (Some spec_example_df)
                 = Ok [(1, loaded_row "v2" "1:100" "")]) by reflexivity.
    rewrite E' in E. injection E as <-. exact I.
Defined.

(** ** The order of the index *)

(** X10: [sort_df_by_index] returns the rows of its argument, none lost
    and none added, in ascending order of their labels; a frame that is
    in that order already is returned as it is, so that sorting twice is
    sorting once. *)
Theorem sort_df_by_index_orders_rows (df : DataFrame) :
  Permutation (sort_df_by_index df) df
  /\ StronglySorted (fun a b => label a <= label b) (sort_df_by_index df)
  /\ sort_df_by_index (sort_df_by_index df) = sort_df_by_index df.
Proof.
  split; [apply sort_df_by_index_Permutation|].
  split; [apply sort_df_by_index_sorted|].
  apply sort_by_sorted_id.
  eapply StronglySorted_weaken; [|apply sort_df_by_index_sorted].
  intros a b H. apply Nat.leb_le. exact H.
Qed.

(** ** The Renamer: copies, and identifiers without a separator *)

Lemma rename_rows_copy (p : string) (ps : list string) (positions : list nat)
    (df : DataFrame) :
  (forall x, In x df -> 2 <= length (split "_" (variation x))) ->
  rename_rows Copy (p :: ps) positions df = Ok df.
Proof.
  intros H. induction positions as [|i positions IH]; simpl; [reflexivity|].
  rewrite (rename_row_copy p ps df i H). simpl. exact IH.
Qed.

(** X11: when the row that [iterrows] yields is a copy, the Renamer
    returns the table as it was given: the new identifiers are computed
    and assigned to the copies, and no identifier of the table changes. *)
Theorem renamer_on_copies_changes_nothing (df : DataFrame) (p : string)
    (ps : list string) :
  (forall x, In x df -> 2 <= length (split "_" (variation x))) ->
  rename_snps_in_df Copy df (p :: ps) = Ok df.
Proof. intros H. apply rename_rows_copy. exact H. Qed.

Lemma renamer_on_copies_witness :
  rename_snps_in_df Copy [(0, loaded_row "chr1_12345" "1:12345" "IMPACT=LOW")]
                    ["sampleA"]%string
  = Ok [(0, loaded_row "chr1_12345" "1:12345" "IMPACT=LOW")].
Proof.
  apply (renamer_on_copies_changes_nothing
           [(0, loaded_row "chr1_12345" "1:12345" "IMPACT=LOW")] "sampleA" []).
  intros x [<-|[]]. vm_compute. lia.
Defined.

Lemma split_one_piece (sep : ascii) (s : string) :
  contains sep s = false -> split sep s = [s].
Proof.
  induction s as [|c s IH]; simpl; [reflexivity|].
  destruct (Ascii.eqb c sep); simpl; [discriminate|].
  intros H. rewrite (IH H). reflexivity.
Qed.

Lemma rename_row_no_separator (access : row_access) (prefix : list string)
    (done todo : DataFrame) (x : Series) :
  contains "_" (variation x) = false ->
  rename_row access prefix (done ++ x :: todo) (length done) = Raise IndexError.
Proof.
  intros H. unfold rename_row.
  rewrite list_lookup_middle by reflexivity. destruct x as [index row].
  unfold variation in H. simpl in H. rewrite (split_one_piece _ _ H).
  destruct prefix; reflexivity.
Qed.

Lemma rename_row_step (access : row_access) (p : string) (ps : list string)
    (done todo : DataFrame) (x : Series) :
  contains "_" (variation x) = true ->
  exists x', rename_row access (p :: ps) (done ++ x :: todo) (length done)
             = Ok (done ++ x' :: todo).
Proof.
  intros H. unfold rename_row.
  rewrite list_lookup_middle by reflexivity. destruct x as [index row].
  unfold variation in H. simpl in H.
  pose proof (split_length "_" (Uploaded_variation row)) as L.
  apply contains_count in H.
  destruct (split "_" (Uploaded_variation row)) as [|a [|b l]]; simpl in L; try lia.
  simpl. destruct access.
  - rewrite insert_app_r_alt by lia. rewrite Nat.sub_diag. simpl. eauto.
  - eauto.
Qed.

Lemma rename_rows_no_separator (access : row_access) (prefix : list string)
    (todo done : DataFrame) :
  (exists x, In x todo /\ contains "_" (variation x) = false) ->
  rename_rows access prefix (seq (length done) (length todo)) (done ++ todo)
  = Raise IndexError.
Proof.
  revert done. induction todo as [|x todo IH]; intros done (y & Hy & Hc).
  - contradiction.
  - simpl.
    destruct (contains "_" (variation x)) eqn:C.
    + destruct prefix as [|p ps].
      * unfold rename_row. rewrite list_lookup_middle by reflexivity.
        destruct x. reflexivity.
      * destruct (rename_row_step access p ps done todo x C) as (x' & ->). simpl.
        destruct Hy as [->|Hy]; [congruence|].
        specialize (IH (done ++ [x'])).
        rewrite length_app in IH. simpl in IH.
        replace (length done + 1) with (S (length done)) in IH by lia.
        rewrite <- app_assoc in IH. simpl in IH.
        apply IH. exists y. split; assumption.
    + rewrite (rename_row_no_separator access prefix done todo x C). reflexivity.
Qed.

(** X12: the Renamer raises an [IndexError], and returns no table, as
    soon as one identifier of the table has no ['_'], whatever the prefix
    list and whether rows are views or copies; and so it does for a table
    with a row when the prefix list is empty. *)
Theorem renamer_raises_index_error (access : row_access) (df : DataFrame)
    (prefix : list string) :
  (exists x, In x df /\ contains "_" (variation x) = false)
  \/ (df <> [] /\ prefix = []) ->
  rename_snps_in_df access df prefix = Raise IndexError.
Proof.
  intros [H|(Hne & ->)].
  - exact (rename_rows_no_separator access prefix df [] H).
  - destruct df as [|[index row] df]; [contradiction|]. reflexivity.
Qed.

Lemma renamer_raises_witness :
  rename_snps_in_df View [(0, loaded_row "chr1_12345" "1:12345" "");
                          (1, loaded_row "rs123" "1:20000" "")]
                    ["sampleA"]%string
  = Raise IndexError.
Proof.
  apply renamer_raises_index_error. left.
  exists (1, loaded_row "rs123" "1:20000" ""). split; [right; left|]; reflexivity.
Defined.

(** X13: of the prefix list the Renamer uses the first token only. *)
Theorem renamer_uses_first_token_only (access : row_access) (df : DataFrame)
    (p : string) (ps ps' : list string) :
  rename_snps_in_df access df (p :: ps) = rename_snps_in_df access df (p :: ps').
Proof.
  unfold rename_snps_in_df. generalize (seq 0 (length df)) as positions.
  intros positions. revert df.
  induction positions as [|i positions IH]; intros df; simpl; [reflexivity|].
  replace (rename_row access (p :: ps) df i) with (rename_row access (p :: ps') df i)
    by reflexivity.
  destruct (rename_row access (p :: ps') df i); simpl; [apply IH|reflexivity].
Qed.

(** ** The whole run of [vep_highest_impact.py] *)

Section Runs.

Variable read_csv : list string -> result (list (list string)).
Variable to_csv : DataFrame -> list string.
Variable access : row_access.

Lemma main_from_selector_some (args : Args) (rows : list (Row dict)) (w : World) :
  main_from_selector to_csv access args (Some (range_index rows)) w
  = match rename args with
    | None =>
        (write_file (out args)
           (to_csv (sort_df_by_index (drop_duplicates (selection (range_index rows))))) w,
         Ok tt)
    | Some r =>
        match rename_snps_in_df access
                (sort_df_by_index (drop_duplicates (selection (range_index rows))))
                (split "," r) with
        | Ok result_df => (write_file (out args) (to_csv result_df) w, Ok tt)
        | Raise e => (w, Raise e)
        end
    end.
Proof.
  unfold main_from_selector, bindM, eval, exec.
  rewrite out_is_output.
  2:{ rewrite range_index_labels. apply seq_NoDup. }
  destruct (rename args) as [r|]; [|reflexivity].
  destruct (rename_snps_in_df access _ (split "," r)); reflexivity.
Qed.

(** X14: a run of [main] that ends with an exception has not written
    the output file: what the output path holds, or that it holds
    nothing, is as before the run (the output path not being the [.tmp]
    path of the input). *)
Theorem failed_run_writes_no_output (args : Args) (w w' : World) (e : exn) :
  out args <> vep args +:+ ".tmp" ->
  main read_csv to_csv access args w = (w', Raise e) ->
  files w' !! out args = files w !! out args.
Proof.
  intros Hout. unfold main, bindM. rewrite loader_cases.
  destruct (files w !! vep args) as [lines|] eqn:F.
  - cbv zeta. destruct (loaded_rows read_csv (strip_comments lines)) as [rows|e0].
    + rewrite main_from_selector_some.
      destruct (rename args) as [r|]; [|discriminate].
      destruct (rename_snps_in_df access _ (split "," r)); [discriminate|].
      intros [= <- _]. unfold remove_file, write_file. simpl.
      rewrite lookup_delete_ne by (intros E; apply Hout; symmetry; exact E).
      apply lookup_insert_ne. intros E. apply Hout. symmetry. exact E.
    + assert (T : files (write_file (vep args +:+ ".tmp") (strip_comments lines) w)
                    !! out args = files w !! out args).
      { unfold write_file. simpl. apply lookup_insert_ne.
        intros E. apply Hout. symmetry. exact E. }
      destruct e0; intros [= <- _]; exact T.
  - unfold main_from_selector, bindM, eval. simpl. intros [= <- _]. reflexivity.
Qed.

(** X15: the run without [--rename] on a file that loads: the output
    file holds what [to_csv] makes of the rows that are first of their
    identifier in the group-wise selection, ordered by their label; the
    [.tmp] file is gone, nothing is printed and nothing is raised. *)
Theorem run_without_rename (args : Args) (w : World) (lines : list string)
    (rows : list (Row dict)) :
  files w !! vep args = Some lines ->
  loaded_rows read_csv (strip_comments lines) = Ok rows ->
  rename args = None ->
  main read_csv to_csv access args w
  = (mkWorld
       (<[out args :=
            to_csv (sort_df_by_index
                      (drop_duplicates (selection (range_index rows))))]>
          (delete (vep args +:+ ".tmp") (files w)))
       (stdout w),
     Ok tt).
Proof.
  intros F L R. unfold main, bindM. rewrite loader_cases, F. cbv zeta. rewrite L.
  rewrite main_from_selector_some, R.
  unfold write_file, remove_file. simpl. rewrite delete_insert_eq. reflexivity.
Qed.

End Runs.

Lemma failed_run_witness :
  files (fst (main plain_reader plain_writer View
                (mkArgs "in.vep" None "out.tsv") bad_extra_world)) !! "out.tsv"%string
  = files bad_extra_world !! "out.tsv"%string.
Proof.
  apply (failed_run_writes_no_output plain_reader plain_writer View
           (mkArgs "in.vep" None "out.tsv") bad_extra_world
           (fst (main plain_reader plain_writer View
                   (mkArgs "in.vep" None "out.tsv") bad_extra_world))
           ValueError).
  - discriminate.
  - vm_compute. reflexivity.
Defined.

Lemma run_without_rename_witness :
  main plain_reader plain_writer View (mkArgs "in.vep" None "out.tsv") sample_vep_world
  = (mkWorld (<["out.tsv"%string := ["1_100_A/G;1:100"%string]]>
                (delete "in.vep.tmp"%string (files sample_vep_world))) [],
     Ok tt).
Proof.
  rewrite (run_without_rename plain_reader plain_writer View
             (mkArgs "in.vep" None "out.tsv") sample_vep_world sample_vep_lines
             sample_vep_rows).
  - reflexivity.
  - reflexivity.
  - vm_compute. reflexivity.
  - reflexivity.
Defined.

Section RenamedRun.

Variable read_csv : list string -> result (list (list string)).
Variable to_csv : DataFrame -> list string.

(** X16: the run with [--rename] on a file that loads, when every
    identifier of the file has two ['_']-separated parts and the rows that
    [iterrows] yields are views: the output file holds what [to_csv] makes
    of the selected rows, ordered by their label, each with its identifier
    rewritten with the text of the option before its first comma. *)
Theorem run_with_rename (args : Args) (w : World) (lines : list string)
    (rows : list (Row dict)) (r : string) :
  files w !! vep args = Some lines ->
  loaded_rows read_csv (strip_comments lines) = Ok rows ->
  rename args = Some r ->
  (forall row, In row rows -> 2 <= length (split "_" (Uploaded_variation row))) ->
  main read_csv to_csv View args w
  = (mkWorld
       (<[out args :=
            to_csv (List.map (rename_one (segment_key_of "," r))
                      (sort_df_by_index
                         (drop_duplicates (selection (range_index rows)))))]>
          (delete (vep args +:+ ".tmp") (files w)))
       (stdout w),
     Ok tt).
Proof.
  intros F L R H. unfold main, bindM. rewrite loader_cases, F. cbv zeta. rewrite L.
  rewrite main_from_selector_some, R.
  unfold segment_key_of.
  destruct (split "," r) as [|p ps] eqn:S; [exfalso; eapply split_not_nil; exact S|].
  assert (E : rename_snps_in_df View
                (sort_df_by_index (drop_duplicates (selection (range_index rows))))
                (p :: ps)
              = Ok (List.map (rename_one p)
                      (sort_df_by_index
                         (drop_duplicates (selection (range_index rows)))))).
  { apply (rename_rows_view p ps _ []).
    intros x Hx.
    eapply Permutation_in in Hx; [|apply sort_df_by_index_Permutation].
    apply out_rows_of_input in Hx.
    unfold range_index in Hx. destruct x as [index row].
    apply in_combine_r in Hx. apply H. exact Hx. }
  rewrite E.
  unfold write_file, remove_file. simpl. rewrite delete_insert_eq. reflexivity.
Qed.

End RenamedRun.

Lemma run_with_rename_witness :
  main plain_reader plain_writer View
       (mkArgs "in.vep" (Some "sampleA,x,y"%string) "out.tsv") sample_vep_world
  = (mkWorld (<["out.tsv"%string := ["sampleA:contig_1:100;1:100"%string]]>
                (delete "in.vep.tmp"%string (files sample_vep_world))) [],
     Ok tt).
Proof.
  rewrite (run_with_rename plain_reader plain_writer
             (mkArgs "in.vep" (Some "sampleA,x,y"%string) "out.tsv") sample_vep_world
             sample_vep_lines sample_vep_rows "sampleA,x,y").
  - reflexivity.
  - reflexivity.
  - vm_compute. reflexivity.
  - reflexivity.
  - intros row Hr. vm_compute in Hr. destruct Hr as [<-|[<-|[]]]; vm_compute; lia.
Defined.

(** ** The Merger: errors, rows and header *)

(** X17: the Merger handles no exception: when one of the two input
    files does not exist it ends with [FileNotFoundError], and when the
    first table has no [Uploaded_variation] column or the second no [ID]
    column it ends with [KeyError]; in each case nothing is written. *)
Theorem merger_errors_write_nothing (args : Annotate.Args) (w : Annotate.World) :
  (Annotate.files w !! Annotate.vep args = None ->
   Annotate.main args w = (w, Raise FileNotFoundError))
  /\ (forall vep_df,
         Annotate.files w !! Annotate.vep args = Some vep_df ->
         Annotate.files w !! Annotate.regenie args = None ->
         Annotate.main args w = (w, Raise FileNotFoundError))
  /\ (forall vep_df regenie_df,
         Annotate.files w !! Annotate.vep args = Some vep_df ->
         Annotate.files w !! Annotate.regenie args = Some regenie_df ->
         ~ In "Uploaded_variation"%string (Annotate.columns vep_df)
         \/ ~ In "ID"%string (Annotate.columns regenie_df) ->
         Annotate.main args w = (w, Raise KeyError)).
Proof.
  unfold Annotate.main, bindM, Annotate.read_csv, inspect, eval.
  split; [|split].
  - intros ->. reflexivity.
  - intros vep_df -> ->. reflexivity.
  - intros vep_df regenie_df -> -> H. unfold Annotate.merge_inner.
    destruct H as [H|H].
    + rewrite (column_position_not_In _ _ H). reflexivity.
    + rewrite (column_position_not_In _ _ H).
      destruct (in_dec String.string_dec "Uploaded_variation"%string
                       (Annotate.columns vep_df)) as [Hin|Hout].
      * destruct (column_position_In _ _ Hin) as (li & -> & _). reflexivity.
      * rewrite (column_position_not_In _ _ Hout). reflexivity.
Qed.

Lemma merger_errors_witness :
  Annotate.main (Annotate.mkArgs "vep.tsv" "missing.tsv" "out.tsv") sample_merger_world
  = (sample_merger_world, Raise FileNotFoundError).
Proof.
  apply (merger_errors_write_nothing
           (Annotate.mkArgs "vep.tsv" "missing.tsv" "out.tsv") sample_merger_world)
    with (vep_df := sample_vep_table).
  - reflexivity.
  - reflexivity.
Defined.

Lemma merge_inner_rows (left right : Annotate.Table) (left_on right_on : string)
    (li ri : nat) (merged : Annotate.Table) :
  Annotate.column_position left_on (Annotate.columns left) = Ok li ->
  Annotate.column_position right_on (Annotate.columns right) = Ok ri ->
  Annotate.merge_inner left right left_on right_on = Ok merged ->
  forall row, In row (Annotate.rows merged) <->
    exists l r v, In l (Annotate.rows left) /\ In r (Annotate.rows right)
                  /\ Annotate.cell li l = Some v /\ Annotate.cell ri r = Some v
                  /\ row = l ++ r.
Proof.
  intros Hl Hr. unfold Annotate.merge_inner. rewrite Hl, Hr. simpl.
  intros [= <-] row. simpl. rewrite in_flat_map. split.
  - intros (l & Hin & H). apply in_map_iff in H as (r & <- & Hf).
    apply filter_In in Hf as (Hrin & K).
    unfold Annotate.same_key in K.
    destruct (Annotate.cell li l) as [a|] eqn:Ea; [|discriminate K].
    destruct (Annotate.cell ri r) as [b|] eqn:Eb; [|discriminate K].
    apply String.eqb_eq in K. subst b.
    exists l, r, a. repeat split; assumption.
  - intros (l & r & v & Hin & Hrin & Ea & Eb & ->).
    exists l. split; [exact Hin|]. apply in_map. apply filter_In.
    split; [exact Hrin|]. unfold Annotate.same_key. rewrite Ea, Eb.
    apply String.eqb_refl.
Qed.

Lemma suffixed_disjoint (suffix : string) (other mine : list string) :
  (forall c, In c mine -> ~ In c other) ->
  Annotate.suffixed suffix other mine = mine.
Proof.
  intros H. unfold Annotate.suffixed.
  induction mine as [|c mine IH]; simpl; [reflexivity|].
  rewrite IH by (intros c' Hc; apply H; right; exact Hc). f_equal.
  destruct (existsb (String.eqb c) other) eqn:E; [|reflexivity].
  exfalso. apply existsb_exists in E as (y & Hy & Ey).
  apply String.eqb_eq in Ey. subst y. exact (H c (or_introl eq_refl) Hy).
Qed.

(** The table the Merger writes, when both files hold a table with its
    key column. *)
Lemma merger_output (args : Annotate.Args) (w : Annotate.World)
    (vep_df regenie_df : Annotate.Table) (li ri : nat) :
  Annotate.files w !! Annotate.vep args = Some vep_df ->
  Annotate.files w !! Annotate.regenie args = Some regenie_df ->
  Annotate.column_position "Uploaded_variation" (Annotate.columns vep_df) = Ok li ->
  Annotate.column_position "ID" (Annotate.columns regenie_df) = Ok ri ->
  exists merged result_df,
    Annotate.merge_inner vep_df regenie_df "Uploaded_variation" "ID" = Ok merged
    /\ Annotate.main args w
       = (Annotate.mkWorld (<[Annotate.out args := result_df]> (Annotate.files w)), Ok tt)
    /\ Annotate.rows result_df = Annotate.rows merged
    /\ (Annotate.columns result_df = Annotate.columns merged
        \/ Annotate.columns result_df
           = Annotate.columns vep_df ++ Annotate.columns regenie_df).
Proof.
  intros Hv Hr Hl Hri.
  assert (Hm : exists merged,
             Annotate.merge_inner vep_df regenie_df "Uploaded_variation" "ID" = Ok merged
             /\ (Annotate.columns merged = [] -> Annotate.columns vep_df = [])).
  { unfold Annotate.merge_inner. rewrite Hl, Hri. simpl. eexists.
    split; [reflexivity|]. simpl. intros C.
    apply app_eq_nil in C as (C & _).
    unfold Annotate.suffixed in C. apply map_eq_nil in C. exact C. }
  destruct Hm as (merged & Hm & Hcols).
  unfold Annotate.main, bindM, Annotate.read_csv, inspect, eval, Annotate.to_csv, exec.
  rewrite Hv, Hr, Hm.
  exists merged. destruct (Annotate.empty merged) eqn:E.
  - eexists. split; [reflexivity|]. split; [reflexivity|]. split; [|right; reflexivity].
    simpl. unfold Annotate.empty in E.
    destruct (Annotate.rows merged) eqn:R; [reflexivity|].
    destruct (Annotate.columns merged) eqn:C; [|discriminate E].
    exfalso. rewrite (Hcols eq_refl) in Hl. discriminate Hl.
  - exists merged. split; [reflexivity|]. split; [reflexivity|].
    split; [reflexivity|left; reflexivity].
Qed.

(** X18: when both files hold a table with its key column, the Merger
    raises nothing and writes one table; its rows are the rows made of a
    row of the first table followed by a row of the second whose [ID] is
    the [Uploaded_variation] of the first, for every such pair, and no
    other row. *)
Theorem merger_rows_are_matching_pairs (args : Annotate.Args) (w : Annotate.World)
    (vep_df regenie_df : Annotate.Table) (li ri : nat) :
  Annotate.files w !! Annotate.vep args = Some vep_df ->
  Annotate.files w !! Annotate.regenie args = Some regenie_df ->
  Annotate.column_position "Uploaded_variation" (Annotate.columns vep_df) = Ok li ->
  Annotate.column_position "ID" (Annotate.columns regenie_df) = Ok ri ->
  exists result_df,
    Annotate.main args w
    = (Annotate.mkWorld (<[Annotate.out args := result_df]> (Annotate.files w)), Ok tt)
    /\ forall row, In row (Annotate.rows result_df) <->
         exists l r v, In l (Annotate.rows vep_df) /\ In r (Annotate.rows regenie_df)
                       /\ Annotate.cell li l = Some v /\ Annotate.cell ri r = Some v
                       /\ row = l ++ r.
Proof.
  intros Hv Hr Hl Hri.
  destruct (merger_output args w vep_df regenie_df li ri Hv Hr Hl Hri)
    as (merged & result_df & Hm & Hmain & Hrows & _).
  exists result_df. split; [exact Hmain|].
  rewrite Hrows. apply (merge_inner_rows vep_df regenie_df _ _ li ri merged Hl Hri Hm).
Qed.

(** X19: when the two tables share no column label, the header of the
    table the Merger writes is the header of the first followed by the
    header of the second, whether rows match or not. *)
Theorem merger_header_is_concatenation (args : Annotate.Args) (w : Annotate.World)
    (vep_df regenie_df : Annotate.Table) :
  Annotate.files w !! Annotate.vep args = Some vep_df ->
  Annotate.files w !! Annotate.regenie args = Some regenie_df ->
  In "Uploaded_variation"%string (Annotate.columns vep_df) ->
  In "ID"%string (Annotate.columns regenie_df) ->
  (forall c, In c (Annotate.columns vep_df) -> ~ In c (Annotate.columns regenie_df)) ->
  exists result_df,
    Annotate.main args w
    = (Annotate.mkWorld (<[Annotate.out args := result_df]> (Annotate.files w)), Ok tt)
    /\ Annotate.columns result_df
       = Annotate.columns vep_df ++ Annotate.columns regenie_df.
Proof.
  intros Hv Hr Hcv Hcr Hdis.
  destruct (column_position_In _ _ Hcv) as (li & Hl & _).
  destruct (column_position_In _ _ Hcr) as (ri & Hri & _).
  destruct (merger_output args w vep_df regenie_df li ri Hv Hr Hl Hri)
    as (merged & result_df & Hm & Hmain & _ & Hcols).
  exists result_df. split; [exact Hmain|].
  destruct Hcols as [E | E]; rewrite E; [|reflexivity].
  unfold Annotate.merge_inner in Hm. rewrite Hl, Hri in Hm. simpl in Hm.
  injection Hm as <-. simpl.
  rewrite !suffixed_disjoint; [reflexivity| |exact Hdis].
  intros c Hc Hc'. exact (Hdis c Hc' Hc).
Qed.

Lemma merger_rows_witness :
  exists result_df,
    Annotate.main (Annotate.mkArgs "vep.tsv" "regenie.tsv" "out.tsv") matching_merger_world
    = (Annotate.mkWorld (<["out.tsv"%string := result_df]>
                           (Annotate.files matching_merger_world)), Ok tt)
    /\ In (["s:contig_1:10"; "1:10"; "{}"; "1"; "s:contig_1:10"; "7.5"]%string)
          (Annotate.rows result_df).
Proof.
  destruct (merger_rows_are_matching_pairs
              (Annotate.mkArgs "vep.tsv" "regenie.tsv" "out.tsv") matching_merger_world
              sample_vep_table matching_regenie_table 0 1)
    as (result_df & E & H); try reflexivity.
  exists result_df. split; [exact E|]. apply H.
  exists ["s:contig_1:10"; "1:10"; "{}"]%string, ["1"; "s:contig_1:10"; "7.5"]%string,
    "s:contig_1:10"%string.
  repeat split; simpl; tauto.
Defined.

Lemma merger_header_witness :
  exists result_df,
    Annotate.main (Annotate.mkArgs "vep.tsv" "regenie.tsv" "out.tsv") matching_merger_world
    = (Annotate.mkWorld (<["out.tsv"%string := result_df]>
                           (Annotate.files matching_merger_world)), Ok tt)
    /\ Annotate.columns result_df
       = ["Uploaded_variation"; "Location"; "Extra"; "CHROM"; "ID"; "LOG10P"]%string.
Proof.
  apply (merger_header_is_concatenation
           (Annotate.mkArgs "vep.tsv" "regenie.tsv" "out.tsv") matching_merger_world
           sample_vep_table matching_regenie_table); try reflexivity.
  - simpl. tauto.
  - simpl. tauto.
  - intros c Hc Hc'. simpl in Hc, Hc'.
    destruct Hc as [<-|[<-|[<-|[]]]]; destruct Hc' as [E|[E|[E|[]]]]; discriminate E.
Defined.
